(** * LegendHelper: bins, gradient sampling and legend labels

    A shallow embedding of [lib/Map/LegendHelper.js] (terriajs) and the
    properties of its binning, colour lookup and legend labelling.

    Conventions of the embedding:
    - a JavaScript number that is finite is a rational ([Q]); [===] on two
      numbers is [Qeq], [>] is [Qlt] read right to left; the result of an
      addition, subtraction, multiplication or division is rounded as
      binary64 rounds it, to the nearest number with a significand of 53
      bits, ties to even ([JS.fl]); the range of the exponent is not
      bounded, so that overflow and underflow are left out;
    - [option A] stands for "an [A] or [undefined]"; where the source
      computes with a number, [None] stands for a non-finite number
      ([NaN], and the infinities), which is what [undefined] turns into;
    - arrays are lists, indexed with stdpp's [!!]; a read out of range
      gives [None], as the source's [undefined];
    - objects that the source mutates live in a store ([gmap]) and are
      passed around by reference. *)

From Stdlib Require Import ZArith QArith Qround Qpower Lqa Lia String Ascii List.
From Stdlib Require Import DecimalString.
From stdpp Require Import base decidable option list gmap strings sorting.

Local Open Scope Z_scope.

(** ** JavaScript values and primitives *)

Module JS.

Definition number := Q.

(** The exponent of the power of two at or below a positive number:
    [2 ^ ilog2 a <= a < 2 ^ (ilog2 a + 1)]. *)
Definition ilog2 (a : Q) : Z :=
  let k := Z.log2 (Qnum a) - Z.log2 (Zpos (Qden a)) in
  if Qle_bool (2 ^ k) a then k else k - 1.

(** The nearest integer, a half going to the even neighbour. *)
Definition roundHalfEven (q : Q) : Z :=
  let f := Qfloor q in
  match (q - inject_Z f ?= 1 # 2)%Q with
  | Lt => f
  | Gt => f + 1
  | Eq => if Z.even f then f else f + 1
  end.

(** The nearest number with a significand of 53 bits, for a positive [a]. *)
Definition flPositive (a : Q) : Q :=
  let e := ilog2 a - 52 in
  (inject_Z (roundHalfEven (a / 2 ^ e)) * 2 ^ e)%Q.

(** Rounding to binary64: what an arithmetic operation returns for the
    exact result [x]. *)
Definition fl (x : Q) : Q :=
  match (x ?= 0)%Q with
  | Eq => 0%Q
  | Gt => flPositive x
  | Lt => (- flPositive (- x))%Q
  end.

(** [x + y], [x - y], [x * y] and [x / y] on numbers. *)
Definition add (x y : Q) : Q := fl (x + y).
Definition sub (x y : Q) : Q := fl (x - y).
Definition mul (x y : Q) : Q := fl (x * y).
Definition div (x y : Q) : Q := fl (x / y).

(** The values a table column holds: only [typeof x === 'number'] is
    observed by the source. *)
Inductive value : Type :=
| VNumber (x : number)
| VString (s : string)
| VNull.

Definition isNumber (x : value) : option number :=
  match x with
  | VNumber q => Some q
  | _ => None
  end.

(** A call that may throw. *)
Inductive result (A : Type) : Type :=
| Ok (a : A)
| Throw (e : string).
Arguments Ok {A} a.
Arguments Throw {A} e.

(** What is done with the value of a call that returned. *)
Definition mapResult {A B : Type} (f : A -> B) (r : result A) : result B :=
  match r with
  | Ok a => Ok (f a)
  | Throw e => Throw e
  end.

(** [x > y] on numbers; a comparison with [undefined] is false. *)
Definition gt (x y : option number) : bool :=
  match x, y with
  | Some a, Some b => negb (Qle_bool a b)
  | _, _ => false
  end.

(** [x === y] on "number or undefined". *)
Definition strictEq (x y : option number) : bool :=
  match x, y with
  | Some a, Some b => Qeq_bool a b
  | None, None => true
  | _, _ => false
  end.

(** [a[i]] for an index that is a number: [undefined] when the index is
    not a finite number, is negative or is past the end. *)
Definition index {A : Type} (a : list A) (i : option Z) : option A :=
  match i with
  | Some z => if z <? 0 then None else a !! Z.to_nat z
  | None => None
  end.

(** [a / b] on two integers. [None] is the non-finite quotient by zero. *)
Definition divInt (a b : Z) : option number :=
  if b =? 0 then None else Some (div (inject_Z a) (inject_Z b)).

(** Arithmetic where an operand may be [undefined] (hence [NaN]). *)
Definition lift2 (f : Q -> Q -> Q) (x y : option number) : option number :=
  match x, y with
  | Some a, Some b => Some (f a b)
  | _, _ => None
  end.

(** [Math.round]: the nearest integer, halves going up. *)
Definition round (x : Q) : Z := Qfloor (x + (1 # 2))%Q.

(** Decimal text of an integer, as string concatenation prints it. *)
Definition stringOfZ (z : Z) : string :=
  NilZero.string_of_int (Z.to_int z).

Definition stringOfOptZ (z : option Z) : string :=
  match z with
  | Some z => stringOfZ z
  | None => "undefined"
  end.

End JS.

(** ** Cesium helpers *)

(** Modelled from the spec: [defined] and [defaultValue] come from the
    Cesium package, which is not part of this repository; a value is
    defined when it is not [undefined], and [defaultValue a b] is [a]
    when [a] is defined and [b] otherwise. *)
Definition defined {A : Type} (x : option A) : bool :=
  match x with
  | Some _ => true
  | None => false
  end.

Definition defaultValue {A : Type} (a : option A) (b : A) : A :=
  match a with
  | Some x => x
  | None => b
  end.

(** Cesium's [Color]: four channels; [None] is a channel that is [NaN]. *)
Record Color : Type := mkColor {
  red : option Q;
  green : option Q;
  blue : option Q;
  alpha : option Q
}.

(** ** The data model *)

Record ColorStop : Type := mkColorStop {
  offset : Q;
  stopColor : string
}.

(** The pixels of the rendered ramp: [ImageData.data], four bytes a pixel. *)
Record ImageData : Type := mkImageData {
  data : list Z
}.

Record Bin : Type := mkBin {
  upperBound : option Q;
  color : list (option Z)
}.

(** [binColors[i].upperBound], read only for an [i] within the array. *)
Definition boundAt (binColors : list Bin) (i : nat) : option Q :=
  match binColors !! i with
  | Some b => upperBound b
  | None => None
  end.

(** Modelled from the spec: the column type tag (continuous or
    categorical) of [VarType], whose source is not in this file; the
    legend only asks whether the type is [ENUM]. *)
Inductive VarType : Type := SCALAR | ENUM.

Record TableColumn : Type := mkTableColumn {
  name : string;
  values : option (list JS.value);
  minimumValue : option Q;
  maximumValue : option Q;
  type : VarType;
  enumList : list string
}.

Record TableStyle : Type := mkTableStyle {
  colorMap : option (list ColorStop);
  colorBins : option Z;
  colorBinMethod : string;
  legendTicks : option Z;
  minDisplayValue : option Q;
  maxDisplayValue : option Q
}.

Definition defaultColorMap : list ColorStop :=
  [ mkColorStop 0 "rgba(32,0,200,1.0)";
    mkColorStop (1 # 4) "rgba(0,200,200,1.0)";
    mkColorStop (1 # 2) "rgba(0,200,0,1.0)";
    mkColorStop (3 # 4) "rgba(200,200,0,1.0)";
    mkColorStop 1 "rgba(200,0,0,1.0)" ].

Definition defaultColorArray : list (option Z) :=
  [Some 32; Some 0; Some 200; Some 255].

(** ** Colours *)

(** [colorArray[k] / 255]; an [undefined] entry divides to [NaN]. *)
Definition channel (colorArray : list (option Z)) (k : nat) : option Q :=
  match colorArray !! k with
  | Some (Some z) => Some (JS.div (inject_Z z) 255)
  | _ => None
  end.

Definition colorArrayToColor (colorArray : list (option Z)) : Color :=
  mkColor (channel colorArray 0) (channel colorArray 1)
          (channel colorArray 2) (channel colorArray 3).

(** [Math.floor(fractionalPosition * (data.length / 4 - 1)) * 4]. *)
Definition colorIndex (colorGradient : ImageData)
    (fractionalPosition : option Q) : option Z :=
  match fractionalPosition with
  | Some f =>
      Some (Qfloor
              (JS.mul f
                 (JS.sub
                    (JS.div (inject_Z (Z.of_nat (length (data colorGradient)))) 4)
                    1))
            * 4)
  | None => None
  end.

Definition getColorFromColorGradient (colorGradient : ImageData)
    (fractionalPosition : option Q) : list (option Z) :=
  let i := colorIndex colorGradient fractionalPosition in
  let d := data colorGradient in
  [ JS.index d i;
    JS.index d ((fun c => c + 1) <$> i);
    JS.index d ((fun c => c + 2) <$> i);
    JS.index d ((fun c => c + 3) <$> i) ].

(** ** The statistics package *)

(** [simple-statistics] is an outside package: the binning code is
    parametric in its two entry points. [quantile sample p] is called with
    a non-empty sample and [0 < p <= 1] only; [ckmeans data nClusters]
    receives the bin count, which is [None] when it is not a number, and
    may throw instead of returning clusters. *)
Record SimpleStatistics : Type := mkSimpleStatistics {
  quantile : list Q -> Q -> Q;
  ckmeans : list Q -> option Z -> JS.result (list (list Q))
}.

(** ** Bins *)

Definition lower (c : ascii) : ascii :=
  let n := nat_of_ascii c in
  if ((65 <=? n) && (n <=? 90))%nat then ascii_of_nat (n + 32) else c.

Fixpoint prefixIgnoringCase (p s : string) : bool :=
  match p, s with
  | EmptyString, _ => true
  | String a p', String b s' =>
      Ascii.eqb (lower a) (lower b) && prefixIgnoringCase p' s'
  | String _ _, EmptyString => false
  end.

(** [s.match(/none/i)] is truthy: [s] contains "none" in any letter case. *)
Fixpoint matchNone (s : string) : bool :=
  prefixIgnoringCase "none" s
  || match s with
     | String _ s' => matchNone s'
     | EmptyString => false
     end.

Definition numericalValuesOf (vs : list JS.value) : list Q :=
  omap JS.isNumber vs.

(** [tableStyle.colorBinMethod === 'quantile' ||
     tableStyle.colorBinMethod === 'auto' && numericalValues.length > 1000] *)
Definition usesQuantile (method : string) (numericalValues : list Q) : bool :=
  String.eqb method "quantile"
  || (String.eqb method "auto" && (1000 <? length numericalValues)%nat).

(** The last element of a cluster, [c[c.length - 1]]. *)
Definition lastOf (c : list Q) : option Q :=
  JS.index c (Some (Z.of_nat (length c) - 1)).

(** The test that skips cluster [i] in the loop over the clusters. *)
Definition skipsCluster (clusters : list (list Q)) (i : nat) : bool :=
  match clusters !! i with
  | None => false
  | Some c =>
      (0 <? i)%nat && (length c =? 1)%nat
      && match c !! 0%nat with
         | None => false
         | Some x =>
             JS.strictEq (Some x)
               (match clusters !! (i - 1)%nat with
                | Some prev => lastOf prev
                | None => None
                end)
         end
  end.

(** The bound pushed for cluster [i]: [clusters[i][clusters[i].length - 1]]. *)
Definition boundOfCluster (clusters : list (list Q)) (i : nat) : option Q :=
  match clusters !! i with
  | Some c => lastOf c
  | None => None
  end.

(** The first loop of the clustering branch: the upper bounds pushed, in
    order; the colours are filled in by the second loop. *)
Definition clusterBounds (clusters : list (list Q)) : list (option Q) :=
  foldl (fun bounds i =>
           if skipsCluster clusters i then bounds
           else bounds ++ [boundOfCluster clusters i])
        [] (seq 0 (length clusters)).

(** The quantile branch: one bin for each [i] below [binCount]; no bin at
    all when [binCount] is not a number. *)
Definition quantileBins (simplestats : SimpleStatistics)
    (numericalValues : list Q) (binCount : option Z)
    (colorGradient : ImageData) : list Bin :=
  match binCount with
  | None => []
  | Some k =>
      (fun i : nat =>
         mkBin
           (Some (quantile simplestats numericalValues
                    (JS.div (inject_Z (Z.of_nat i + 1)) (inject_Z k))))
           (getColorFromColorGradient colorGradient
              (JS.divInt (Z.of_nat i) (k - 1))))
        <$> seq 0 (Z.to_nat k)
  end.

(** The second loop of the clustering branch: the colours of the bins. *)
Definition colourBounds (colorGradient : ImageData)
    (bounds : list (option Q)) : list Bin :=
  imap (fun i ub =>
          mkBin ub
            (getColorFromColorGradient colorGradient
               (JS.divInt (Z.of_nat i) (Z.of_nat (length bounds) - 1))))
       bounds.

(** The clustering branch: the bounds of the clusters kept, then their
    colours; what [ckmeans] throws is thrown on. *)
Definition clusterBins (simplestats : SimpleStatistics)
    (numericalValues : list Q) (binCount : option Z)
    (colorGradient : ImageData) : JS.result (list Bin) :=
  JS.mapResult
    (fun clusters => colourBounds colorGradient (clusterBounds clusters))
    (ckmeans simplestats numericalValues binCount).

(** [Math.min(tableStyle.colorBins, numericalValues.length)] *)
Definition binCountOf (tableStyle : TableStyle) (numericalValues : list Q)
    : option Z :=
  (fun b => Z.min b (Z.of_nat (length numericalValues)))
    <$> colorBins tableStyle.

Definition buildBinColors (simplestats : SimpleStatistics)
    (tableColumn : TableColumn) (tableStyle : TableStyle)
    (colorGradient : ImageData) : JS.result (option (list Bin)) :=
  match values tableColumn with
  | None => JS.Ok None
  | Some vs =>
      if match colorBins tableStyle with
         | Some b => b <=? 0
         | None => false
         end
         || matchNone (colorBinMethod tableStyle)
      then JS.Ok None
      else
        let numericalValues := numericalValuesOf vs in
        let binCount := binCountOf tableStyle numericalValues in
        if usesQuantile (colorBinMethod tableStyle) numericalValues
        then JS.Ok (Some (quantileBins simplestats numericalValues binCount
                            colorGradient))
        else JS.mapResult Some
               (clusterBins simplestats numericalValues binCount
                  colorGradient)
  end.

(** ** Legend properties *)

(** [(n / 100).toString()] for an integer [n]: the sign, the whole part
    and at most two decimals, trailing zeros dropped (the shortest text
    that reads back as the quotient, for an [n] of up to fifteen digits). *)
Definition stringOfHundredths (n : Z) : string :=
  let a := Z.abs n in
  (if n <? 0 then "-" else "")
  +:+ JS.stringOfZ (a / 100)
  +:+ (if a mod 100 =? 0 then ""
       else "." +:+ JS.stringOfZ (a mod 100 / 10)
                +:+ (if a mod 10 =? 0 then "" else JS.stringOfZ (a mod 10))).

(** [(Math.round(f * 100) / 100).toString()]; [None] is a number that
    is not finite, printed as the source prints [NaN]. *)
Definition convertToStringWithAtMostTwoDecimalPlaces (f : option Q) : string :=
  match f with
  | Some q => stringOfHundredths (JS.round (JS.mul q 100))
  | None => "NaN"
  end.

(** An entry of [items]; [itemColor] is the source's [color]. *)
Record LegendItem : Type := mkLegendItem {
  title : option string;
  titleAbove : option string;
  titleBelow : option string;
  itemColor : option string
}.

(** The object handed to [Legend]; [legendTitle] is the source's [title]. *)
Record LegendProps : Type := mkLegendProps {
  legendTitle : string;
  barHeightMin : option Z;
  gradientColorMap : option (list ColorStop);
  labelTickColor : option string;
  itemSpacing : option Z;
  items : list LegendItem
}.

(** The display bounds: the column's, or the style's when the column is
    not constant. *)
Definition displayBounds (tableColumn : TableColumn) (tableStyle : TableStyle)
    : option Q * option Q :=
  let minimumValue := minimumValue tableColumn in
  let maximumValue := maximumValue tableColumn in
  if negb (JS.strictEq minimumValue maximumValue) then
    (if defined (minDisplayValue tableStyle)
     then minDisplayValue tableStyle else minimumValue,
     if defined (maxDisplayValue tableStyle)
     then maxDisplayValue tableStyle else maximumValue)
  else (minimumValue, maximumValue).

Definition gradientLabelPoints (minimumValue maximumValue : option Q)
    (ticks : option Z) : list LegendItem :=
  match ticks with
  | None => []
  | Some t =>
      let segments := 2 + t in
      (fun k : nat =>
         let i := Z.of_nat k in
         mkLegendItem None
           (Some (convertToStringWithAtMostTwoDecimalPlaces
                    (JS.lift2 JS.add minimumValue
                       (JS.lift2 JS.mul
                          (JS.lift2 JS.sub maximumValue minimumValue)
                          (JS.divInt i segments)))))
           (if i =? 1
            then Some (convertToStringWithAtMostTwoDecimalPlaces minimumValue)
            else None)
           None)
        <$> seq 1 (Z.to_nat segments)
  end.

(** ['rgb(' + b.color[0] + ',' + b.color[1] + ',' + b.color[2] + ')'] *)
Definition rgb (b : Bin) : string :=
  "rgb(" +:+ JS.stringOfOptZ (mjoin (color b !! 0%nat)) +:+ ","
         +:+ JS.stringOfOptZ (mjoin (color b !! 1%nat)) +:+ ","
         +:+ JS.stringOfOptZ (mjoin (color b !! 2%nat)) +:+ ")".

Definition showsTitleAbove (binColors : list Bin) (i : nat) (b : Bin) : bool :=
  (i =? 0)%nat
  || (Z.of_nat i <? Z.of_nat (length binColors) - 1)
  || JS.gt (upperBound b) (boundAt binColors (i - 1)).

Definition numericItem (binColors : list Bin) (minimumValue : option Q)
    (i : nat) (b : Bin) : LegendItem :=
  mkLegendItem None
    (if showsTitleAbove binColors i b
     then Some (convertToStringWithAtMostTwoDecimalPlaces (upperBound b))
     else None)
    (if (i =? 0)%nat && negb (JS.strictEq (upperBound b) minimumValue)
     then Some (convertToStringWithAtMostTwoDecimalPlaces minimumValue)
     else None)
    (Some (rgb b)).

Definition enumItem (tableColumn : TableColumn) (i : nat) (b : Bin)
    : LegendItem :=
  mkLegendItem (enumList tableColumn !! i) None None (Some (rgb b)).

Definition buildLegendProps (tableColumn : TableColumn)
    (tableStyle : TableStyle) (colorMap : list ColorStop)
    (binColors : option (list Bin)) : option LegendProps :=
  if (length colorMap =? 1)%nat then None
  else
    let '(minimumValue, maximumValue) := displayBounds tableColumn tableStyle in
    match binColors with
    | None =>
        Some (mkLegendProps (name tableColumn) (Some 130) (Some colorMap)
                (Some "darkgray") None
                (gradientLabelPoints minimumValue maximumValue
                   (legendTicks tableStyle)))
    | Some binColors =>
        match type tableColumn with
        | ENUM =>
            Some (mkLegendProps (name tableColumn) None None None (Some 2)
                    (imap (enumItem tableColumn) binColors))
        | _ =>
            Some (mkLegendProps (name tableColumn) None None None (Some 0)
                    (imap (numericItem binColors minimumValue) binColors))
        end
    end.

(** ** The helper object *)

(** Style objects are shared with the caller: the store maps a reference
    to the object it denotes. *)
Definition ref := positive.
Abbreviation store := (gmap ref TableStyle).

(** [_legend]: not tried yet ([undefined]), tried and failed ([null]), or
    the legend built from the properties. *)
Inductive LegendSlot : Type :=
| LegendUndefined
| LegendNull
| LegendOf (props : LegendProps).

Record LegendHelper : Type := mkLegendHelper {
  tableColumn : option TableColumn;
  tableStyle : ref;
  _legend : LegendSlot;
  _colorGradient : option ImageData;
  _binColors : option (list Bin)
}.

(** Modelled from the spec: [new TableStyle()], whose source is not in
    this file; every option is absent but the binning method, which
    defaults to "auto". *)
Definition newTableStyle : TableStyle :=
  mkTableStyle None None "auto" None None None.

Definition setColorBins (v : Z) (s : TableStyle) : TableStyle :=
  mkTableStyle (colorMap s) (Some v) (colorBinMethod s) (legendTicks s)
    (minDisplayValue s) (maxDisplayValue s).

Definition setLegendTicks (v : Z) (s : TableStyle) : TableStyle :=
  mkTableStyle (colorMap s) (colorBins s) (colorBinMethod s) (Some v)
    (minDisplayValue s) (maxDisplayValue s).

(** The constructor: the new helper and the store it leaves behind. The two
    assignments read and write the object [this.tableStyle] refers to. *)
Definition newLegendHelper (tableColumn : option TableColumn)
    (tableStyle : option ref) (h : store) : LegendHelper * store :=
  let '(r, h0) :=
    match tableStyle with
    | Some r => (r, h)
    | None => let r := fresh (dom h) in (r, <[r := newTableStyle]> h)
    end in
  let h1 := alter (fun s => setColorBins (defaultValue (colorBins s) 7) s) r h0 in
  let h2 := alter (fun s => setLegendTicks (defaultValue (legendTicks s) 0) s) r h1 in
  (mkLegendHelper tableColumn r LegendUndefined None None, h2).

(** [generateLegend]; [buildColorGradient] draws on a canvas and is taken
    as the function [render] from a colour map to the pixels read back.
    What [buildBinColors] throws is thrown on; the helper is then left
    with its gradient assigned and nothing else, and is not returned. *)
Definition generateLegend (simplestats : SimpleStatistics)
    (render : list ColorStop -> ImageData)
    (this : LegendHelper) (h : store) : JS.result LegendHelper :=
  match tableColumn this with
  | None => JS.Ok this
  | Some column =>
      match h !! tableStyle this with
      | None => JS.Throw "TypeError"
      | Some style =>
          let colorMap := defaultValue (colorMap style) defaultColorMap in
          let gradient := render colorMap in
          match buildBinColors simplestats column style gradient with
          | JS.Throw e => JS.Throw e
          | JS.Ok bins =>
              let legendProps := buildLegendProps column style colorMap bins in
              JS.Ok (mkLegendHelper (tableColumn this) (tableStyle this)
                       (match legendProps with
                        | Some props => LegendOf props
                        | None => LegendNull
                        end)
                       (Some gradient) bins)
          end
      end
  end.

(** The condition of the [while] loop of [getColorFromValue]:
    [i < this._binColors.length - 1 && value > this._binColors[i].upperBound] *)
Definition scanContinues (binColors : list Bin) (value : Q) (i : nat) : bool :=
  (Z.of_nat i <? Z.of_nat (length binColors) - 1)
  && JS.gt (Some value) (boundAt binColors i).

(** The loop, run for at most [fuel] steps from index [i]; the index it
    stops at. *)
Fixpoint scanBins (fuel : nat) (binColors : list Bin) (value : Q) (i : nat)
    : nat :=
  match fuel with
  | O => i
  | S fuel' =>
      if scanContinues binColors value i
      then scanBins fuel' binColors value (S i)
      else i
  end.

(** The lines written to the console and the colour returned. *)
Definition getColorFromValue (this : LegendHelper) (value : option Q)
    : JS.result (list string * Color) :=
  match value with
  | None => JS.Ok ([], colorArrayToColor defaultColorArray)
  | Some v =>
      match _binColors this with
      | None => JS.Throw "TypeError"
      | Some binColors =>
          let i := scanBins (length binColors) binColors v 0 in
          match binColors !! i with
          | None =>
              JS.Ok (["Bad bin " +:+ JS.stringOfZ (Z.of_nat i)],
                     colorArrayToColor [Some 0; Some 0; Some 0; Some 0])
          | Some b => JS.Ok ([], colorArrayToColor (color b))
          end
      end
  end.

(** ** What the statistics package is taken to do *)

#[global] Instance Qle_decision (x y : Q) : Decision (x <= y)%Q.
Proof.
  destruct (Qlt_le_dec y x) as [H | H].
  - right. intros H'. exact (Qlt_not_le _ _ H H').
  - left. exact H.
Defined.

(** [m] is the largest value of [l] (up to the equality of numbers). *)
Definition isMaximum (m : Q) (l : list Q) : Prop :=
  (exists x, x ∈ l /\ (x == m)%Q) /\ (forall x, x ∈ l -> (x <= m)%Q).

(** What the binning code needs of [quantile]: it does not decrease in [p],
    and at [p = 1] it is the largest value of the sample. *)
Definition quantileContract (simplestats : SimpleStatistics) : Prop :=
  (forall sample p p',
      sample <> [] -> (0 < p)%Q -> (p <= p')%Q -> (p' <= 1)%Q ->
      (quantile simplestats sample p <= quantile simplestats sample p')%Q)
  /\ (forall sample p,
         sample <> [] -> (p == 1)%Q ->
         isMaximum (quantile simplestats sample p) sample).

(** What the binning code needs of [ckmeans]: asked for [k] clusters of
    [data], with [1 <= k <= length data], it returns, and cuts the sorted
    data into at most [k] clusters, none of them empty. Nothing is asked
    of it outside these bounds. *)
Definition ckmeansContract (simplestats : SimpleStatistics) : Prop :=
  forall data k,
    1 <= k <= Z.of_nat (length data) ->
    exists clusters,
      ckmeans simplestats data (Some k) = JS.Ok clusters
      /\ Forall (fun c => c <> []) clusters
      /\ concat clusters ≡ₚ data
      /\ StronglySorted Qle (concat clusters)
      /\ (Z.of_nat (length clusters) <= k).

(** Modelled from the spec: the sort inside the statistics package, which
    is not in this repository; ascending order of numbers. *)
Definition numericSort (l : list Q) : list Q := merge_sort Qle l.

(** Modelled from the spec: [quantile] of the statistics package, which is
    not in this repository, as the type-7 estimator: on the sorted sample
    [x] of size [n], with [h = (n - 1) p], the value
    [x[floor h] + (h - floor h) (x[floor h + 1] - x[floor h])]. *)
Definition quantileType7 (sample : list Q) (p : Q) : Q :=
  let sorted := numericSort sample in
  let h := ((inject_Z (Z.of_nat (length sorted)) - 1) * p)%Q in
  let lo := Qfloor h in
  match sorted !! Z.to_nat lo with
  | None => 0%Q
  | Some xlo =>
      let xhi := default xlo (sorted !! Z.to_nat (lo + 1)) in
      Qred (xlo + (h - inject_Z lo) * (xhi - xlo))%Q
  end.

Definition sumQ (l : list Q) : Q := foldr Qplus 0%Q l.

(** Modelled from the spec: the within-cluster variance that the
    clustering of the statistics package (not in this repository)
    minimises: the squared distances of a cluster to its mean. *)
Definition withinCluster (c : list Q) : Q :=
  let mean := (sumQ c / inject_Z (Z.of_nat (length c)))%Q in
  sumQ ((fun x => (x - mean) * (x - mean))%Q <$> c).

Definition partitionCost (clusters : list (list Q)) : Q :=
  sumQ (withinCluster <$> clusters).

(** Modelled from the spec: the ways to cut a list into exactly [k]
    consecutive clusters, none empty; the search space of the 1-D
    clustering of the statistics package (not in this repository). *)
Fixpoint splits (k : nat) (l : list Q) : list (list (list Q)) :=
  match k with
  | O => match l with [] => [[]] | _ :: _ => [] end
  | S k' =>
      seq 1 (length l)
        ≫= (fun j => cons (take j l) <$> splits k' (drop j l))
  end.

Fixpoint cheapest (candidates : list (list (list Q)))
    : option (list (list Q)) :=
  match candidates with
  | [] => None
  | c :: rest =>
      match cheapest rest with
      | Some best =>
          if Qle_bool (partitionCost c) (partitionCost best)
          then Some c else Some best
      | None => Some c
      end
  end.

(** Modelled from the spec: [ckmeans] of the statistics package, which is
    not in this repository: a partition of the sorted data into
    [nClusters] clusters of minimal within-cluster variance. The spec
    speaks of it for one cluster or more, and no more clusters than
    values; outside these bounds it is taken to throw. *)
Definition ckmeansOptimal (data : list Q) (nClusters : option Z)
    : JS.result (list (list Q)) :=
  match nClusters with
  | Some k =>
      if (1 <=? k) && (k <=? Z.of_nat (length data))
      then match cheapest (splits (Z.to_nat k) (numericSort data)) with
           | Some clusters => JS.Ok clusters
           | None => JS.Throw "Error"
           end
      else JS.Throw "Error"
  | None => JS.Throw "Error"
  end.

(** What [ckmeans] is taken to return, in the spec's words: one of the
    cuts of the sorted data into [k] clusters, of least cost among them. *)
Definition ckmeansMinimal (simplestats : SimpleStatistics) : Prop :=
  forall data k,
    1 <= k <= Z.of_nat (length data) ->
    exists clusters,
      ckmeans simplestats data (Some k) = JS.Ok clusters
      /\ clusters ∈ splits (Z.to_nat k) (numericSort data)
      /\ (forall s, s ∈ splits (Z.to_nat k) (numericSort data) ->
                    (partitionCost clusters <= partitionCost s)%Q).

(** Modelled from the spec: the statistics package, as the spec words its
    two entry points. *)
Definition specStatistics : SimpleStatistics :=
  mkSimpleStatistics quantileType7 ckmeansOptimal.

(** ** Vocabulary of the properties *)

(** [x] is a number, [y] is a number, and [x] is the larger. *)
Definition exceeds (x y : option Q) : Prop :=
  exists a b, x = Some a /\ y = Some b /\ (b < a)%Q.

(** The same number, or both [undefined]. *)
Definition sameValue (x y : option Q) : Prop :=
  match x, y with
  | Some a, Some b => (a == b)%Q
  | None, None => True
  | _, _ => False
  end.

(** The upper bound [ub] is a number that is at least [v]. *)
Definition atLeast (ub : option Q) (v : Q) : Prop :=
  exists u, ub = Some u /\ (v <= u)%Q.

(** Bin [i] is the first bin whose upper bound is at least [v]. *)
Definition firstAtLeast (binColors : list Bin) (v : Q) (i : nat) : Prop :=
  (exists b, binColors !! i = Some b /\ atLeast (upperBound b) v)
  /\ (forall j b, (j < i)%nat -> binColors !! j = Some b ->
                  ~ atLeast (upperBound b) v).

(** [v] is larger than every upper bound. *)
Definition exceedsAll (binColors : list Bin) (v : Q) : Prop :=
  forall b, b ∈ binColors -> exceeds (Some v) (upperBound b).

(** The pixel at index [k] of the table: its four bytes. *)
Definition pixel (colorGradient : ImageData) (k : Z) : list (option Z) :=
  let d := data colorGradient in
  [ d !! Z.to_nat (k * 4); d !! Z.to_nat (k * 4 + 1);
    d !! Z.to_nat (k * 4 + 2); d !! Z.to_nat (k * 4 + 3) ].

Definition clampIndex (resolution i : Z) : Z :=
  Z.max 0 (Z.min (resolution - 1) i).

(** In the spec's words: cluster [i] is not the first, has one value, and
    that value is the last value of the cluster before it. *)
Definition droppedCluster (clusters : list (list Q)) (i : nat) : Prop :=
  i <> 0%nat
  /\ exists x prev y,
       clusters !! i = Some [x]
       /\ clusters !! (i - 1)%nat = Some prev
       /\ last prev = Some y
       /\ (x == y)%Q.

(** The number of distinct values of a sample. *)
Fixpoint distinctValues (l : list Q) : list Q :=
  match l with
  | [] => []
  | x :: rest =>
      if existsb (Qeq_bool x) rest then distinctValues rest
      else x :: distinctValues rest
  end.

(** The bins promised for a sample when at most [limit] of them are
    allowed: bounds that are numbers and do not decrease, at most [limit]
    of them, the last one the largest value of the sample. *)
Definition binsWithin (limit : Z) (numericalValues : list Q)
    (bins : list Bin) : Prop :=
  exists bounds,
    upperBound <$> bins = Some <$> bounds
    /\ StronglySorted Qle bounds
    /\ Z.of_nat (length bounds) <= limit
    /\ exists m, last bounds = Some m /\ isMaximum m numericalValues.

(** The loop over the clusters, read along the list: [prev] is the cluster
    before the first one of [clusters], if there is one. *)
Definition skipAfter (prev : option (list Q)) (c : list Q) : bool :=
  match prev with
  | None => false
  | Some p =>
      (length c =? 1)%nat
      && match c !! 0%nat with
         | None => false
         | Some x => JS.strictEq (Some x) (lastOf p)
         end
  end.

Fixpoint boundsAfter (prev : option (list Q)) (clusters : list (list Q))
    : list (option Q) :=
  match clusters with
  | [] => []
  | c :: rest =>
      (if skipAfter prev c then [] else [lastOf c])
      ++ boundsAfter (Some c) rest
  end.

(** Modelled from the spec: the cuts of least cost among [candidates], the
    clusterings that a minimal-variance partition may return. *)
Definition cheapestAll (candidates : list (list (list Q)))
    : list (list (list Q)) :=
  List.filter
    (fun c => forallb (fun s => Qle_bool (partitionCost c) (partitionCost s))
                      candidates)
    candidates.

(** The spec's examples. *)
Definition columnOf (numbers : list Q) : TableColumn :=
  mkTableColumn "value" (Some (JS.VNumber <$> numbers)) None None SCALAR [].

Definition styleOf (bins : Z) (method : string) : TableStyle :=
  mkTableStyle None (Some bins) method (Some 0) None None.

Definition exampleBins : list Bin :=
  [ mkBin (Some 1%Q) [Some 32; Some 0; Some 200; Some 255];
    mkBin (Some 5%Q) [Some 0; Some 200; Some 0; Some 255];
    mkBin (Some 9%Q) [Some 200; Some 0; Some 0; Some 255] ].

Definition exampleHelper : LegendHelper :=
  mkLegendHelper (Some (columnOf [1; 5; 9]%Q)) 1%positive LegendUndefined
    None (Some exampleBins).

(** A table of three pixels. *)
Definition exampleGradient : ImageData :=
  mkImageData [32; 0; 200; 255; 0; 200; 0; 255; 200; 0; 0; 255].

(** [legendUrl]; [asPngUrl] is the renderer of the legend, which is not
    part of this file. The helper is returned with the URL, since the call
    may fill in [_legend]. *)
Definition legendUrl (simplestats : SimpleStatistics)
    (render : list ColorStop -> ImageData) (asPngUrl : LegendProps -> string)
    (this : LegendHelper) (h : store)
    : JS.result (LegendHelper * option string) :=
  match match _legend this with
        | LegendUndefined => generateLegend simplestats render this h
        | _ => JS.Ok this
        end with
  | JS.Throw e => JS.Throw e
  | JS.Ok this' =>
      JS.Ok (this',
             match _legend this' with
             | LegendOf props => Some (asPngUrl props)
             | _ => None
             end)
  end.

(** The style [s] with other display bounds. *)
Definition withDisplayBounds (lo hi : option Q) (s : TableStyle) : TableStyle :=
  mkTableStyle (colorMap s) (colorBins s) (colorBinMethod s) (legendTicks s)
    lo hi.

(** The column [c] with other values. *)
Definition withValues (vs : option (list JS.value)) (c : TableColumn)
    : TableColumn :=
  mkTableColumn (name c) vs (minimumValue c) (maximumValue c) (type c)
    (enumList c).

(** The four letters spell "none", in any letter case. *)
Definition spellsNone (a b c d : ascii) : Prop :=
  lower a = "n"%char /\ lower b = "o"%char
  /\ lower c = "n"%char /\ lower d = "e"%char.

(** A table of [resolution] pixels, at least one (and no more than an
    array can hold). *)
Definition validGradient (g : ImageData) (resolution : Z) : Prop :=
  Z.of_nat (length (data g)) = 4 * resolution
  /\ 1 <= resolution < 2 ^ 53.

(** The sampling of the gradient as it would be with a clamp: the entry at
    the index [floor (fraction * (resolution - 1))] clamped into
    [[0, resolution - 1]]. *)
Definition sampledWithClamp (g : ImageData) (resolution : Z) (fraction : Q)
    : Prop :=
  getColorFromColorGradient g (Some fraction)
  = pixel g (clampIndex resolution
               (Qfloor (JS.mul fraction (inject_Z (resolution - 1))))).

(** * Properties *)

(** ** Rounding to binary64 *)

Lemma pow2_pos (k : Z) : (0 < 2 ^ k)%Q.
Proof. apply Qpower_0_lt. reflexivity. Qed.

Lemma pow2_plus (a b : Z) : (2 ^ (a + b) == 2 ^ a * 2 ^ b)%Q.
Proof. apply Qpower_plus. discriminate. Qed.

Lemma pow2_le (a b : Z) : a <= b -> (2 ^ a <= 2 ^ b)%Q.
Proof. intros H. apply Qpower_le_compat_l; [done|]. unfold Qle; simpl; lia. Qed.

Lemma pow2_Z (n : Z) : 0 <= n -> (2 ^ n == inject_Z (2 ^ n))%Q.
Proof. intros H. symmetry. apply (Zpower_Qpower 2 n H). Qed.

Lemma ilog2_spec (a : Q) :
  (0 < a)%Q -> (2 ^ JS.ilog2 a <= a)%Q /\ (a < 2 ^ (JS.ilog2 a + 1))%Q.
Proof.
  intros Ha. unfold JS.ilog2.
  set (n := Qnum a). set (d := Zpos (Qden a)).
  assert (Hn : 0 < n) by (subst n; unfold Qlt in Ha; simpl in Ha; lia).
  assert (Hd : 0 < d) by (subst d; lia).
  pose proof (Z.log2_spec n Hn) as [Hn1 Hn2].
  pose proof (Z.log2_spec d Hd) as [Hd1 Hd2].
  pose proof (Z.log2_nonneg n) as Hln. pose proof (Z.log2_nonneg d) as Hld.
  set (ln := Z.log2 n) in *. set (ld := Z.log2 d) in *.
  assert (Hq : (a * inject_Z d == inject_Z n)%Q).
  { subst n d. destruct a as [an ad]. unfold Qeq. simpl. lia. }
  assert (Hdq : (0 < inject_Z d)%Q)
    by (change 0%Q with (inject_Z 0); rewrite <- Zlt_Qlt; lia).
  (* bounds by the powers around numerator and denominator *)
  assert (Hup : (a < 2 ^ (ln - ld + 1))%Q).
  { replace (ln - ld + 1) with (Z.succ ln + - ld) by lia.
    rewrite pow2_plus, Qpower_opp, (pow2_Z (Z.succ ln)), (pow2_Z ld) by lia.
    rewrite Zlt_Qlt in Hn2. rewrite Zle_Qle in Hd1.
    assert (0 < inject_Z (2 ^ ld))%Q
      by (change 0%Q with (inject_Z 0); rewrite <- Zlt_Qlt; lia).
    apply Qlt_shift_div_l; [done|]. nra. }
  assert (Hlo : (2 ^ (ln - ld - 1) <= a)%Q).
  { replace (ln - ld - 1) with (ln + - Z.succ ld) by lia.
    rewrite pow2_plus, Qpower_opp, (pow2_Z ln), (pow2_Z (Z.succ ld)) by lia.
    rewrite Zle_Qle in Hn1. rewrite Zlt_Qlt in Hd2.
    assert (0 < inject_Z (2 ^ Z.succ ld))%Q
      by (change 0%Q with (inject_Z 0); rewrite <- Zlt_Qlt; lia).
    assert (0 <= inject_Z (2 ^ ln))%Q
      by (change 0%Q with (inject_Z 0); rewrite <- Zle_Qle; lia).
    apply Qle_shift_div_r; [done|]. nra. }
  destruct (Qle_bool (2 ^ (ln - ld)) a) eqn:E.
  - apply Qle_bool_iff in E. done.
  - assert (a < 2 ^ (ln - ld))%Q.
    { apply Qnot_le_lt. intros H. apply Qle_bool_iff in H. congruence. }
    split; [done|]. by replace (ln - ld - 1 + 1) with (ln - ld) by lia.
Qed.

Lemma ilog2_mono (a b : Q) : (0 < a)%Q -> (a <= b)%Q -> JS.ilog2 a <= JS.ilog2 b.
Proof.
  intros Ha Hab.
  destruct (ilog2_spec a Ha) as [Ha1 _].
  destruct (ilog2_spec b) as [_ Hb2]; [lra|].
  destruct (Z_le_gt_dec (JS.ilog2 a) (JS.ilog2 b)) as [|Hgt]; [done|]. exfalso.
  pose proof (pow2_le (JS.ilog2 b + 1) (JS.ilog2 a) ltac:(lia)). lra.
Qed.

Lemma roundHalfEven_bounds (q : Q) :
  Qfloor q <= JS.roundHalfEven q <= Qfloor q + 1.
Proof.
  unfold JS.roundHalfEven.
  destruct (q - inject_Z (Qfloor q) ?= 1 # 2)%Q; [|lia|lia].
  destruct (Z.even (Qfloor q)); lia.
Qed.

Lemma roundHalfEven_Z (z : Z) : JS.roundHalfEven (inject_Z z) = z.
Proof.
  unfold JS.roundHalfEven. rewrite Qfloor_Z.
  destruct (Qcompare_spec (inject_Z z - inject_Z z) (1 # 2)); [lra | done | lra].
Qed.

Lemma roundHalfEven_mono (q q' : Q) :
  (q <= q')%Q -> JS.roundHalfEven q <= JS.roundHalfEven q'.
Proof.
  intros Hle. pose proof (Qfloor_resp_le q q' Hle) as Hf.
  pose proof (roundHalfEven_bounds q). pose proof (roundHalfEven_bounds q').
  destruct (Z.eq_dec (Qfloor q) (Qfloor q')) as [Heq | Hne]; [|lia].
  unfold JS.roundHalfEven. rewrite <- Heq.
  destruct (Qcompare_spec (q - inject_Z (Qfloor q)) (1 # 2)) as [H1 | H1 | H1],
           (Qcompare_spec (q' - inject_Z (Qfloor q)) (1 # 2)) as [H2 | H2 | H2];
    try destruct (Z.even (Qfloor q)); try lia; lra.
Qed.

Lemma scaled_bounds (a : Q) :
  (0 < a)%Q ->
  (2 ^ 52 <= a / 2 ^ (JS.ilog2 a - 52))%Q /\ (a / 2 ^ (JS.ilog2 a - 52) < 2 ^ 53)%Q.
Proof.
  intros Ha. destruct (ilog2_spec a Ha) as [H1 H2].
  pose proof (pow2_pos (JS.ilog2 a - 52)) as He.
  replace (JS.ilog2 a) with (52 + (JS.ilog2 a - 52)) in H1 at 1 by lia.
  replace (JS.ilog2 a + 1) with (53 + (JS.ilog2 a - 52)) in H2 by lia.
  rewrite pow2_plus in H1, H2. split.
  - by apply Qle_shift_div_l.
  - by apply Qlt_shift_div_r.
Qed.

Lemma flPositive_bounds (a : Q) :
  (0 < a)%Q ->
  (2 ^ JS.ilog2 a <= JS.flPositive a)%Q /\ (JS.flPositive a <= 2 ^ (JS.ilog2 a + 1))%Q.
Proof.
  intros Ha. destruct (scaled_bounds a Ha) as [H1 H2]. unfold JS.flPositive.
  set (e := JS.ilog2 a - 52) in *. set (s := (a / 2 ^ e)%Q) in *.
  pose proof (pow2_pos e) as He.
  assert (Hlo : 2 ^ 52 <= JS.roundHalfEven s).
  { rewrite <- (roundHalfEven_Z (2 ^ 52)). apply roundHalfEven_mono.
    by rewrite <- pow2_Z. }
  assert (Hhi : JS.roundHalfEven s <= 2 ^ 53).
  { rewrite <- (roundHalfEven_Z (2 ^ 53)). apply roundHalfEven_mono.
    rewrite <- pow2_Z by lia. lra. }
  rewrite Zle_Qle, <- pow2_Z in Hlo, Hhi by lia.
  replace (JS.ilog2 a) with (52 + e) at 1 by lia.
  replace (JS.ilog2 a + 1) with (53 + e) by lia.
  rewrite !pow2_plus. split; nra.
Qed.

Lemma flPositive_mono (a b : Q) :
  (0 < a)%Q -> (a <= b)%Q -> (JS.flPositive a <= JS.flPositive b)%Q.
Proof.
  intros Ha Hab. assert (Hb : (0 < b)%Q) by lra.
  pose proof (ilog2_mono a b Ha Hab) as Hk.
  destruct (Z.eq_dec (JS.ilog2 a) (JS.ilog2 b)) as [Heq | Hne].
  - unfold JS.flPositive. rewrite <- Heq.
    pose proof (pow2_pos (JS.ilog2 a - 52)) as He.
    apply Qmult_le_compat_r; [|lra].
    rewrite <- Zle_Qle. apply roundHalfEven_mono.
    unfold Qdiv. apply Qmult_le_compat_r; [done|].
    apply Qinv_le_0_compat. lra.
  - destruct (flPositive_bounds a Ha) as [_ H1].
    destruct (flPositive_bounds b Hb) as [H2 _].
    pose proof (pow2_le (JS.ilog2 a + 1) (JS.ilog2 b) ltac:(lia)). lra.
Qed.

Lemma flPositive_pos (a : Q) : (0 < a)%Q -> (0 < JS.flPositive a)%Q.
Proof.
  intros Ha. destruct (flPositive_bounds a Ha) as [H _].
  pose proof (pow2_pos (JS.ilog2 a)). lra.
Qed.

Lemma flPositive_Z (z : Z) :
  0 < z < 2 ^ 53 -> (JS.flPositive (inject_Z z) == inject_Z z)%Q.
Proof.
  intros [Hz Hlt].
  assert (Ha : (0 < inject_Z z)%Q)
    by (change 0%Q with (inject_Z 0); rewrite <- Zlt_Qlt; lia).
  destruct (ilog2_spec _ Ha) as [H1 _].
  assert (Hk : JS.ilog2 (inject_Z z) <= 52).
  { destruct (Z_le_gt_dec (JS.ilog2 (inject_Z z)) 52) as [|Hgt]; [done|]. exfalso.
    pose proof (pow2_le 53 (JS.ilog2 (inject_Z z)) ltac:(lia)) as Hp.
    rewrite (pow2_Z 53) in Hp by lia. rewrite Zlt_Qlt in Hlt. lra. }
  unfold JS.flPositive. set (e := JS.ilog2 (inject_Z z) - 52) in *.
  assert (Hs : (inject_Z z / 2 ^ e == inject_Z (z * 2 ^ (- e)))%Q).
  { rewrite inject_Z_mult, <- pow2_Z by lia. rewrite Qpower_opp. reflexivity. }
  assert (Hr : JS.roundHalfEven (inject_Z z / 2 ^ e) = z * 2 ^ (- e)).
  { rewrite <- (roundHalfEven_Z (z * 2 ^ (- e))).
    apply Z.le_antisymm; apply roundHalfEven_mono; rewrite Hs; lra. }
  rewrite Hr, inject_Z_mult, <- pow2_Z by lia.
  rewrite <- Qmult_assoc, <- pow2_plus.
  replace (- e + e) with 0 by lia. change (2 ^ 0)%Q with 1%Q. ring.
Qed.

Lemma fl_zero (x : Q) : (x == 0)%Q -> JS.fl x = 0%Q.
Proof. intros H. unfold JS.fl. destruct (Qcompare_spec x 0); [done | lra | lra]. Qed.

Lemma fl_positive (x : Q) : (0 < x)%Q -> JS.fl x = JS.flPositive x.
Proof. intros H. unfold JS.fl. destruct (Qcompare_spec x 0); [lra | lra | done]. Qed.

Lemma fl_negative (x : Q) : (x < 0)%Q -> JS.fl x = (- JS.flPositive (- x))%Q.
Proof. intros H. unfold JS.fl. destruct (Qcompare_spec x 0); [lra | done | lra]. Qed.

Lemma fl_mono (x y : Q) : (x <= y)%Q -> (JS.fl x <= JS.fl y)%Q.
Proof.
  intros Hxy.
  destruct (Q_dec x 0) as [[Hx | Hx] | Hx], (Q_dec y 0) as [[Hy | Hy] | Hy];
    rewrite ?(fl_negative x), ?(fl_positive x), ?(fl_zero x),
            ?(fl_negative y), ?(fl_positive y), ?(fl_zero y) by done;
    try lra.
  - assert (JS.flPositive (- y) <= JS.flPositive (- x))%Q
      by (apply flPositive_mono; lra). lra.
  - pose proof (flPositive_pos (- x)). pose proof (flPositive_pos y). lra.
  - pose proof (flPositive_pos (- x)). lra.
  - by apply flPositive_mono.
  - pose proof (flPositive_pos y). lra.
Qed.

#[global] Instance fl_proper : Proper (Qeq ==> Qeq) JS.fl.
Proof.
  intros x y Hxy. apply Qle_antisym; apply fl_mono; lra.
Qed.

Lemma fl_Z (z : Z) : Z.abs z < 2 ^ 53 -> (JS.fl (inject_Z z) == inject_Z z)%Q.
Proof.
  intros Hz. destruct (Z.lt_trichotomy z 0) as [Hneg | [-> | Hpos]].
  - rewrite fl_negative
      by (change 0%Q with (inject_Z 0); rewrite <- Zlt_Qlt; lia).
    rewrite <- inject_Z_opp, flPositive_Z by lia.
    rewrite inject_Z_opp. ring.
  - reflexivity.
  - rewrite fl_positive
      by (change 0%Q with (inject_Z 0); rewrite <- Zlt_Qlt; lia).
    apply flPositive_Z. lia.
Qed.

Lemma fl_nonneg (x : Q) : (0 <= x)%Q -> (0 <= JS.fl x)%Q.
Proof. intros H. change 0%Q with (JS.fl 0). by apply fl_mono. Qed.

Lemma fl_pos (x : Q) : (0 < x)%Q -> (0 < JS.fl x)%Q.
Proof. intros H. rewrite fl_positive by done. by apply flPositive_pos. Qed.

Lemma fl_le_Z (x : Q) (z : Z) :
  Z.abs z < 2 ^ 53 -> (x <= inject_Z z)%Q -> (JS.fl x <= inject_Z z)%Q.
Proof. intros Hz Hx. rewrite <- (fl_Z z Hz). by apply fl_mono. Qed.

Lemma fl_ge_Z (x : Q) (z : Z) :
  Z.abs z < 2 ^ 53 -> (inject_Z z <= x)%Q -> (inject_Z z <= JS.fl x)%Q.
Proof. intros Hz Hx. rewrite <- (fl_Z z Hz). by apply fl_mono. Qed.


(** ** Comparisons *)

Lemma gt_true (v : Q) (ub : option Q) :
  JS.gt (Some v) ub = true <-> exceeds (Some v) ub.
Proof.
  unfold JS.gt, exceeds. destruct ub as [u|]; split.
  - intros H. exists v, u. split; [done|]. split; [done|].
    apply negb_true_iff in H. apply Qnot_le_lt. intros Hle.
    apply Qle_bool_iff in Hle. congruence.
  - intros (a & b & [= <-] & [= <-] & Hlt). apply negb_true_iff.
    destruct (Qle_bool v u) eqn:E; [|done].
    apply Qle_bool_iff in E. lra.
  - done.
  - intros (a & b & _ & [=] & _).
Qed.

Lemma gt_false (v : Q) (u : Q) :
  JS.gt (Some v) (Some u) = false <-> (v <= u)%Q.
Proof.
  unfold JS.gt. rewrite negb_false_iff. apply Qle_bool_iff.
Qed.

(** ** The scan of [getColorFromValue] *)

Lemma scanBins_exit (fuel : nat) (binColors : list Bin) (v : Q) (i : nat) :
  (length binColors <= i + fuel)%nat ->
  let r := scanBins fuel binColors v i in
  (i <= r)%nat
  /\ (forall j, (i <= j < r)%nat -> scanContinues binColors v j = true)
  /\ scanContinues binColors v r = false.
Proof.
  revert i. induction fuel as [|fuel IH]; intros i Hfuel; cbn [scanBins].
  - split; [lia|]. split; [intros j ?; lia|].
    unfold scanContinues. apply andb_false_iff. left.
    apply Z.ltb_ge. lia.
  - destruct (scanContinues binColors v i) eqn:E.
    + destruct (IH (S i)) as (Hle & Hbefore & Hstop); [lia|].
      split; [lia|]. split; [|done].
      intros j Hj. destruct (decide (j = i)) as [->|]; [done|].
      apply Hbefore. lia.
    + split; [lia|]. split; [intros j ?; lia | done].
Qed.

Lemma scanBins_in_range (binColors : list Bin) (v : Q) :
  binColors <> [] ->
  (scanBins (length binColors) binColors v 0 < length binColors)%nat.
Proof.
  intros Hne.
  destruct (scanBins_exit (length binColors) binColors v 0) as (_ & Hbefore & _);
    [lia|].
  set (r := scanBins (length binColors) binColors v 0) in *.
  destruct r as [|r'].
  - destruct binColors; [done | simpl; lia].
  - specialize (Hbefore r' ltac:(lia)).
    unfold scanContinues in Hbefore. apply andb_true_iff in Hbefore as [H _].
    apply Z.ltb_lt in H. lia.
Qed.

Lemma scanBins_fuel (fuel : nat) (binColors : list Bin) (v : Q) (i : nat) :
  (length binColors <= i + fuel)%nat ->
  scanBins fuel binColors v i = scanBins (length binColors - i) binColors v i.
Proof.
  revert i. induction fuel as [|fuel IH]; intros i Hfuel.
  - replace (length binColors - i)%nat with 0%nat by lia. done.
  - destruct (length binColors - i)%nat as [|n] eqn:En.
    + cbn [scanBins]. unfold scanContinues.
      replace (Z.of_nat i <? Z.of_nat (length binColors) - 1) with false;
        [done|]. symmetry. apply Z.ltb_ge. lia.
    + cbn [scanBins]. rewrite IH by lia.
      replace (length binColors - S i)%nat with n by lia. done.
Qed.

Lemma getColorFromValue_scan (this : LegendHelper) (binColors : list Bin) (v : Q) :
  _binColors this = Some binColors -> binColors <> [] ->
  exists i b,
    i = scanBins (length binColors) binColors v 0
    /\ binColors !! i = Some b
    /\ getColorFromValue this (Some v) = JS.Ok ([], colorArrayToColor (color b)).
Proof.
  intros Hbins Hne. unfold getColorFromValue. rewrite Hbins.
  pose proof (scanBins_in_range binColors v Hne) as Hlt.
  destruct (lookup_lt_is_Some_2 binColors _ Hlt) as [b Hb].
  exists (scanBins (length binColors) binColors v 0), b.
  rewrite Hb. done.
Qed.

(** C4: [getColorFromValue] returns the fixed default colour for an
    [undefined] value, whatever the bins are (even when there are none);
    for a number and a non-empty sequence of bins whose upper bounds are
    numbers it returns the colour of the first bin whose upper bound is at
    least the value, and the colour of the last bin when the value is
    larger than every upper bound. Nothing is written to the console. *)
Theorem getColorFromValue_first_bin :
  (forall this, getColorFromValue this None
                = JS.Ok ([], colorArrayToColor defaultColorArray))
  /\ (forall this binColors v,
        _binColors this = Some binColors ->
        binColors <> [] ->
        Forall (fun b => is_Some (upperBound b)) binColors ->
        (forall i b,
            firstAtLeast binColors v i -> binColors !! i = Some b ->
            getColorFromValue this (Some v)
            = JS.Ok ([], colorArrayToColor (color b)))
        /\ (forall b,
              exceedsAll binColors v -> last binColors = Some b ->
              getColorFromValue this (Some v)
              = JS.Ok ([], colorArrayToColor (color b)))).
Proof.
  split; [done|].
  intros this binColors v Hbins Hne Hdef.
  destruct (getColorFromValue_scan this binColors v Hbins Hne)
    as (r & br & Hr & Hbr & Hget).
  destruct (scanBins_exit (length binColors) binColors v 0)
    as (_ & Hbefore & Hstop); [lia|].
  rewrite <- Hr in Hbefore, Hstop.
  assert (Hrlt : (r < length binColors)%nat) by (by eapply lookup_lt_Some).
  split.
  - intros i b [(b' & Hb' & Hat) Hfirst] Hb.
    assert (b' = b) as -> by congruence.
    enough (i = r) by (subst i; congruence).
    destruct (lt_eq_lt_dec i r) as [[Hlt | ->] | Hgt]; [| done |].
    + specialize (Hbefore i ltac:(lia)). unfold scanContinues in Hbefore.
      apply andb_true_iff in Hbefore as [_ Hgt]. unfold boundAt in Hgt.
      rewrite Hb in Hgt. apply gt_true in Hgt.
      destruct Hgt as (a & u & [= <-] & Hu & Hlt').
      destruct Hat as (u' & Hu' & Hle). rewrite Hu in Hu'.
      injection Hu' as ->. lra.
    + exfalso. apply (Hfirst r br Hgt Hbr).
      unfold scanContinues in Hstop. apply andb_false_iff in Hstop as [H | H].
      * apply Z.ltb_ge in H.
        apply lookup_lt_Some in Hb. lia.
      * unfold boundAt in H. rewrite Hbr in H.
        rewrite Forall_forall in Hdef.
        destruct (Hdef br) as [u Hu].
        { eapply list_elem_of_lookup_2. done. }
        rewrite Hu in H. apply gt_false in H. exists u. done.
  - intros b Hall Hlast.
    enough (r = (length binColors - 1)%nat) as Hrl.
    { rewrite last_lookup in Hlast.
      replace (Nat.pred (length binColors)) with r in Hlast by lia. congruence. }
    unfold scanContinues in Hstop. apply andb_false_iff in Hstop as [H | H].
    + apply Z.ltb_ge in H. lia.
    + exfalso. unfold boundAt in H. rewrite Hbr in H.
      assert (JS.gt (Some v) (upperBound br) = true); [|congruence].
      apply gt_true. apply Hall. eapply list_elem_of_lookup_2. done.
Qed.

(** C9: with a non-empty sequence of bins the lookup always lands on a bin
    of the sequence: the loop stops by its own condition (more fuel does
    not change the index), the call returns without throwing, nothing is
    written to the console, and the colour is that of the bin found, not
    the placeholder of the defensive branch. *)
Theorem getColorFromValue_never_misses
    (this : LegendHelper) (binColors : list Bin) (v : Q) :
  _binColors this = Some binColors ->
  binColors <> [] ->
  let i := scanBins (length binColors) binColors v 0 in
  (forall fuel, (length binColors <= fuel)%nat ->
                scanBins fuel binColors v 0 = i)
  /\ scanContinues binColors v i = false
  /\ (i < length binColors)%nat
  /\ exists b, binColors !! i = Some b
               /\ getColorFromValue this (Some v)
                  = JS.Ok ([], colorArrayToColor (color b)).
Proof.
  intros Hbins Hne i. split; [|split; [|split]].
  - intros fuel Hfuel. subst i.
    rewrite (scanBins_fuel fuel) by lia.
    rewrite (scanBins_fuel (length binColors)) by lia. done.
  - apply (scanBins_exit (length binColors) binColors v 0). lia.
  - by apply scanBins_in_range.
  - destruct (getColorFromValue_scan this binColors v Hbins Hne)
      as (r & b & Hr & Hb & Hget).
    exists b. subst r. done.
Qed.

(** Without bins the defensive branch is taken: the premise that the
    sequence is not empty cannot be dropped. *)
Example getColorFromValue_no_bins :
  getColorFromValue (mkLegendHelper None 1%positive LegendUndefined None (Some []))
                    (Some 1%Q)
  = JS.Ok (["Bad bin 0"], colorArrayToColor [Some 0; Some 0; Some 0; Some 0]).
Proof. reflexivity. Qed.

(** ** Sampling the gradient *)

#[global] Instance add_proper : Proper (Qeq ==> Qeq ==> Qeq) JS.add.
Proof. intros x x' Hx y y' Hy. unfold JS.add. by rewrite Hx, Hy. Qed.

#[global] Instance sub_proper : Proper (Qeq ==> Qeq ==> Qeq) JS.sub.
Proof. intros x x' Hx y y' Hy. unfold JS.sub. by rewrite Hx, Hy. Qed.

#[global] Instance mul_proper : Proper (Qeq ==> Qeq ==> Qeq) JS.mul.
Proof. intros x x' Hx y y' Hy. unfold JS.mul. by rewrite Hx, Hy. Qed.

#[global] Instance div_proper : Proper (Qeq ==> Qeq ==> Qeq) JS.div.
Proof. intros x x' Hx y y' Hy. unfold JS.div. by rewrite Hx, Hy. Qed.

Lemma Qfloor_fraction (resolution : Z) (fraction : Q) :
  1 <= resolution < 2 ^ 53 -> (0 <= fraction <= 1)%Q ->
  0 <= Qfloor (JS.mul fraction (inject_Z (resolution - 1))) <= resolution - 1.
Proof.
  intros Hres [H0 H1].
  assert (Hr : (0 <= inject_Z (resolution - 1))%Q).
  { change 0%Q with (inject_Z 0). rewrite <- Zle_Qle. lia. }
  unfold JS.mul. split.
  - change 0 with (Qfloor (inject_Z 0)). apply Qfloor_resp_le.
    apply fl_ge_Z; [lia|]. change (inject_Z 0) with 0%Q. nra.
  - rewrite <- (Qfloor_Z (resolution - 1)) at 2. apply Qfloor_resp_le.
    apply fl_le_Z; [lia|]. nra.
Qed.

Lemma colorIndex_valid (g : ImageData) (resolution : Z) (fraction : Q) :
  Z.of_nat (length (data g)) = 4 * resolution ->
  1 <= resolution < 2 ^ 53 ->
  colorIndex g (Some fraction)
  = Some (Qfloor (JS.mul fraction (inject_Z (resolution - 1))) * 4).
Proof.
  intros Hlen Hres. unfold colorIndex. rewrite Hlen. do 2 f_equal.
  apply Qfloor_comp. apply mul_proper; [reflexivity|].
  assert (H4 : (inject_Z (4 * resolution) / 4 == inject_Z resolution)%Q).
  { rewrite inject_Z_mult. change (inject_Z 4) with 4%Q.
    generalize (inject_Z resolution). intros x. field. }
  unfold JS.sub, JS.div. rewrite H4, fl_Z by lia.
  assert (H1 : (inject_Z resolution - 1 == inject_Z (resolution - 1))%Q).
  { unfold Zminus. rewrite inject_Z_plus.
    change (inject_Z (- (1))) with (-1 # 1)%Q.
    generalize (inject_Z resolution). intros x. ring. }
  rewrite H1. apply fl_Z. lia.
Qed.

(** C6 (as stated) fails: nothing clamps the index. At fraction 2 on a
    table of three pixels the index is 4 and the bytes read are
    [undefined], not those of the last pixel. *)
Lemma getColorFromColorGradient_has_no_clamp :
  ~ sampledWithClamp exampleGradient 3 2%Q.
Proof. unfold sampledWithClamp. vm_compute. discriminate. Qed.

(** C6 (as amended): on a table of [resolution] pixels the sampler reads
    the pixel at index [floor (fraction * (resolution - 1))], the product
    being the rounded one. For a fraction in [[0,1]] that index lies in
    [[0, resolution - 1]] of itself, all four bytes are there, fraction 0
    gives the first pixel and fraction 1 the last. No clamp is applied:
    whenever the index falls outside the table the four entries returned
    are [undefined]. *)
Theorem getColorFromColorGradient_sample
    (g : ImageData) (resolution : Z) (fraction : Q) :
  Z.of_nat (length (data g)) = 4 * resolution ->
  1 <= resolution < 2 ^ 53 ->
  let index := Qfloor (JS.mul fraction (inject_Z (resolution - 1))) in
  ((0 <= fraction <= 1)%Q ->
   getColorFromColorGradient g (Some fraction) = pixel g index
   /\ 0 <= index <= resolution - 1
   /\ Forall is_Some (pixel g index)
   /\ ((fraction == 0)%Q -> index = 0)
   /\ ((fraction == 1)%Q -> index = resolution - 1))
  /\ (index < 0 \/ resolution <= index ->
      getColorFromColorGradient g (Some fraction)
      = [None; None; None; None]).
Proof.
  intros Hlen Hres index. split.
  - intros Hf.
    pose proof (Qfloor_fraction resolution fraction Hres Hf) as Hidx.
    fold index in Hidx.
    split; [|split; [|split; [|split]]].
    + unfold getColorFromColorGradient.
      rewrite (colorIndex_valid g resolution fraction Hlen Hres). fold index.
      unfold pixel, JS.index. cbn [fmap option_fmap option_map].
      repeat match goal with
             | |- context [?z <? 0] =>
                 replace (z <? 0) with false by (symmetry; apply Z.ltb_ge; lia)
             end.
      done.
    + done.
    + unfold pixel. repeat constructor; apply lookup_lt_is_Some; lia.
    + intros Heq. subst index.
      rewrite (Qfloor_comp _ (inject_Z 0)); [apply Qfloor_Z|].
      unfold JS.mul. rewrite Heq, Qmult_0_l. reflexivity.
    + intros Heq. subst index.
      rewrite (Qfloor_comp _ (inject_Z (resolution - 1))); [apply Qfloor_Z|].
      unfold JS.mul. rewrite Heq, Qmult_1_l. apply fl_Z. lia.
  - intros Hout. unfold getColorFromColorGradient.
    rewrite (colorIndex_valid g resolution fraction Hlen Hres). fold index.
    unfold JS.index. cbn [fmap option_fmap option_map].
    destruct Hout as [Hneg | Hbig].
    + repeat match goal with
             | |- context [?z <? 0] =>
                 replace (z <? 0) with true by (symmetry; apply Z.ltb_lt; lia)
             end.
      done.
    + repeat match goal with
             | |- context [?z <? 0] =>
                 replace (z <? 0) with false by (symmetry; apply Z.ltb_ge; lia)
             end.
      rewrite !lookup_ge_None_2 by lia. done.
Qed.

(** Outside [[0,1]] nothing clamps the index: the bytes read are
    [undefined]; so are they at a position that is not a number. *)
Example getColorFromColorGradient_out_of_range :
  let g := mkImageData [1; 2; 3; 4; 5; 6; 7; 8] in
  getColorFromColorGradient g (Some 2%Q) = [None; None; None; None]
  /\ getColorFromColorGradient g (Some (-1)%Q) = [None; None; None; None]
  /\ getColorFromColorGradient g None = [None; None; None; None].
Proof. repeat split; vm_compute; reflexivity. Qed.

(** The products are the rounded ones: a third of three is one, and
    fifteen twenty-seconds of twenty-two stays below fifteen. *)
Example rounded_products :
  Qfloor (JS.mul (JS.div 1 3) 3) = 1
  /\ Qfloor (JS.mul (JS.div 15 22) 22) = 14.
Proof. split; vm_compute; reflexivity. Qed.

(** ** The legend *)

Lemma gt_exceeds (x y : option Q) : JS.gt x y = true <-> exceeds x y.
Proof.
  destruct x as [a|]; [apply gt_true|].
  split; [done|]. intros (a & b & [=] & _).
Qed.

Lemma strictEq_sameValue (x y : option Q) :
  JS.strictEq x y = true <-> sameValue x y.
Proof.
  destruct x as [a|], y as [b|]; simpl; try done.
  apply Qeq_bool_iff.
Qed.

(** C8: with a colour map of exactly one stop [buildLegendProps] returns
    [undefined], whatever the column, the style and the bins are, and
    [generateLegend] records that there is no legend ([null]) whenever
    the binning before it returns; an error thrown by the binning is
    thrown on. *)
Theorem buildLegendProps_single_stop :
  (forall column style colorMap bins,
      length colorMap = 1%nat ->
      buildLegendProps column style colorMap bins = None)
  /\ (forall simplestats render this h column style stop,
        tableColumn this = Some column ->
        h !! tableStyle this = Some style ->
        colorMap style = Some [stop] ->
        match buildBinColors simplestats column style (render [stop]) with
        | JS.Ok bins =>
            exists this',
              generateLegend simplestats render this h = JS.Ok this'
              /\ _legend this' = LegendNull
        | JS.Throw e => generateLegend simplestats render this h = JS.Throw e
        end).
Proof.
  split.
  - intros column style colorMap bins Hlen. unfold buildLegendProps.
    rewrite Hlen. done.
  - intros simplestats render this h column style stop Hcol Hstyle Hmap.
    unfold generateLegend. rewrite Hcol, Hstyle, Hmap.
    cbn [defaultValue].
    destruct (buildBinColors simplestats column style (render [stop]));
      [|done].
    eexists. split; done.
Qed.

(** With two stops or more there is a legend: the single-stop case is the
    only one that gives none. *)
Lemma buildLegendProps_some column style colorMap bins :
  length colorMap <> 1%nat ->
  is_Some (buildLegendProps column style colorMap bins).
Proof.
  intros Hlen. unfold buildLegendProps.
  destruct (Nat.eqb_spec (length colorMap) 1) as [|_]; [done|].
  destruct (displayBounds column style), bins, (type column); done.
Qed.

(** C5: in the legend of numeric bins there is one item for each bin.
    [titleAbove] of item [i] is the formatted upper bound, unless [i] is
    the last item, is not item 0, and its upper bound does not exceed the
    upper bound of the item before; [titleBelow] is there only on item 0
    and only when the upper bound of bin 0 differs from the minimum
    displayed, and is then the formatted minimum. *)
Theorem numeric_legend_titles
    (column : TableColumn) (style : TableStyle) (colorMap : list ColorStop)
    (binColors : list Bin) :
  length colorMap <> 1%nat ->
  type column <> ENUM ->
  let minimumValue := (displayBounds column style).1 in
  exists props,
    buildLegendProps column style colorMap (Some binColors) = Some props
    /\ length (items props) = length binColors
    /\ forall i b,
         binColors !! i = Some b ->
         exists item,
           items props !! i = Some item
           /\ (titleAbove item = None <->
               i <> 0%nat /\ S i = length binColors
               /\ ~ exceeds (upperBound b) (boundAt binColors (i - 1)))
           /\ (titleAbove item <> None ->
               titleAbove item
               = Some (convertToStringWithAtMostTwoDecimalPlaces (upperBound b)))
           /\ (titleBelow item <> None <->
               i = 0%nat /\ ~ sameValue (upperBound b) minimumValue)
           /\ (titleBelow item <> None ->
               titleBelow item
               = Some (convertToStringWithAtMostTwoDecimalPlaces minimumValue)).
Proof.
  intros Hlen Htype minimumValue. unfold buildLegendProps.
  destruct (Nat.eqb_spec (length colorMap) 1) as [|_]; [done|].
  subst minimumValue.
  destruct (displayBounds column style) as [minimumValue maximumValue].
  cbn [fst].
  destruct (type column); [|done].
  eexists. split; [done|]. cbn [items]. split; [apply length_imap|].
  intros i b Hb. exists (numericItem binColors minimumValue i b).
  split; [rewrite list_lookup_imap, Hb; done|].
  pose proof (lookup_lt_Some _ _ _ Hb) as Hi.
  unfold numericItem. cbn [titleAbove titleBelow].
  split; [|split; [|split]].
  - destruct (showsTitleAbove binColors i b) eqn:E; unfold showsTitleAbove in E.
    + split; [done|]. intros (Hi0 & Hlast & Hnot). exfalso.
      apply orb_true_iff in E as [E | E].
      * apply orb_true_iff in E as [E | E].
        -- apply Nat.eqb_eq in E. done.
        -- apply Z.ltb_lt in E. lia.
      * apply Hnot. by apply gt_exceeds.
    + split; [|done]. intros _.
      apply orb_false_iff in E as [E Hgt].
      apply orb_false_iff in E as [E0 Elast].
      apply Nat.eqb_neq in E0. apply Z.ltb_ge in Elast.
      split; [done|]. split; [lia|].
      intros Hex. apply gt_exceeds in Hex. congruence.
  - destruct (showsTitleAbove binColors i b); done.
  - destruct (Nat.eqb_spec i 0) as [->|Hne]; cbn [andb].
    + destruct (JS.strictEq (upperBound b) minimumValue) eqn:E; cbn [negb].
      * apply strictEq_sameValue in E. split; [done|]. intros [_ H]. done.
      * split; [|done]. intros _. split; [done|].
        intros H. apply strictEq_sameValue in H. congruence.
    + split; [done|]. intros [? _]. done.
  - destruct ((i =? 0)%nat && negb (JS.strictEq (upperBound b) minimumValue));
      done.
Qed.

(** The spec's own case: bounds 10, 10, 30 and then a tie at the top. *)
Example numeric_legend_tie_at_top :
  let bin q := mkBin (Some q) [Some 1; Some 2; Some 3; Some 255] in
  let column := mkTableColumn "c" None (Some 10%Q) (Some 30%Q) SCALAR [] in
  (titleAbove <$>
     default [] (items <$> buildLegendProps column newTableStyle defaultColorMap
                             (Some [bin 10%Q; bin 10%Q; bin 30%Q])))
  = [Some "10"; Some "10"; Some "30"]
  /\ (titleAbove <$>
        default [] (items <$> buildLegendProps column newTableStyle defaultColorMap
                                (Some [bin 10%Q; bin 30%Q; bin 30%Q])))
     = [Some "10"; Some "30"; None].
Proof. split; reflexivity. Qed.

(** ** The constructor *)

(** C10: constructing a helper on a style object of the caller writes into
    that very object: [colorBins] becomes 7 and [legendTicks] 0 when they
    were [undefined] and keep their value otherwise, every other field of
    the object is as before, the helper refers to the caller's object, and
    no other object of the store changes. *)
Theorem newLegendHelper_fills_defaults
    (column : option TableColumn) (r : ref) (h : store) (s : TableStyle) :
  h !! r = Some s ->
  let this := (newLegendHelper column (Some r) h).1 in
  let h' := (newLegendHelper column (Some r) h).2 in
  tableStyle this = r
  /\ (exists s',
        h' !! r = Some s'
        /\ colorBins s' = Some (match colorBins s with Some b => b | None => 7 end)
        /\ legendTicks s' = Some (match legendTicks s with Some t => t | None => 0 end)
        /\ colorMap s' = colorMap s
        /\ colorBinMethod s' = colorBinMethod s
        /\ minDisplayValue s' = minDisplayValue s
        /\ maxDisplayValue s' = maxDisplayValue s)
  /\ (forall r', r' <> r -> h' !! r' = h !! r').
Proof.
  intros Hs this h'. subst this h'. unfold newLegendHelper. cbn [fst snd].
  split; [done|]. split.
  - eexists. rewrite lookup_alter_eq, lookup_alter_eq, Hs. cbn [fmap option_fmap option_map].
    split; [done|]. repeat split.
  - intros r' Hr'. rewrite lookup_alter_ne, lookup_alter_ne by done. done.
Qed.

(** ** The clusters kept *)

Lemma lastOf_last (c : list Q) : lastOf c = last c.
Proof.
  unfold lastOf, JS.index. rewrite last_lookup.
  destruct c as [|x c]; [done|].
  replace (Z.of_nat (length (x :: c)) - 1 <? 0) with false
    by (symmetry; apply Z.ltb_ge; simpl; lia).
  f_equal. simpl. lia.
Qed.

Lemma skipsCluster_dropped (clusters : list (list Q)) (i : nat) :
  skipsCluster clusters i = true <-> droppedCluster clusters i.
Proof.
  unfold skipsCluster, droppedCluster. split.
  - destruct (clusters !! i) as [c|] eqn:Hc; [|done].
    intros H. apply andb_true_iff in H as [H Hx].
    apply andb_true_iff in H as [Hi Hlen].
    apply Nat.ltb_lt in Hi. apply Nat.eqb_eq in Hlen.
    destruct c as [|x [|? ?]]; try done. simpl in Hx.
    destruct (clusters !! (i - 1)%nat) as [prev|]; [|done].
    rewrite lastOf_last in Hx.
    destruct (last prev) as [y|] eqn:Hy; [|done].
    simpl in Hx. apply Qeq_bool_iff in Hx.
    split; [lia|]. exists x, prev, y. done.
  - intros (Hi & x & prev & y & -> & -> & Hy & Hxy).
    rewrite lastOf_last, Hy. simpl.
    apply andb_true_iff. split.
    + apply andb_true_iff. split; [apply Nat.ltb_lt; lia | done].
    + by apply Qeq_bool_iff.
Qed.

Lemma foldl_push_kept {A : Type} (skip : nat -> bool) (g : nat -> A)
    (l : list nat) (acc : list A) :
  foldl (fun bounds i => if skip i then bounds else bounds ++ [g i]) acc l
  = acc ++ (g <$> filter (fun i => skip i = false) l).
Proof.
  revert acc. induction l as [|i l IH]; intros acc; simpl.
  - by rewrite app_nil_r.
  - rewrite IH. rewrite filter_cons. destruct (skip i) eqn:E.
    + rewrite decide_False by done. done.
    + rewrite decide_True by done. by rewrite <- app_assoc.
Qed.

Lemma clusterBounds_kept (clusters : list (list Q)) :
  clusterBounds clusters
  = boundOfCluster clusters
      <$> filter (fun i => skipsCluster clusters i = false)
                 (seq 0 (length clusters)).
Proof. unfold clusterBounds. by rewrite foldl_push_kept. Qed.

Lemma StronglySorted_lt_seq (a n : nat) : StronglySorted lt (seq a n).
Proof.
  revert a. induction n as [|n IH]; intros a; simpl; constructor.
  - apply IH.
  - apply Forall_forall. intros j Hj. apply elem_of_seq in Hj. lia.
Qed.

Lemma StronglySorted_sublist {A : Type} (R : relation A) (l k : list A) :
  l `sublist_of` k -> StronglySorted R k -> StronglySorted R l.
Proof.
  induction 1 as [|x l k Hsub IH|x l k Hsub IH]; intros Hk.
  - constructor.
  - apply StronglySorted_inv in Hk as [Hk Hx]. constructor; [by apply IH|].
    eapply Forall_forall. intros y Hy. rewrite Forall_forall in Hx.
    apply Hx. by eapply elem_of_sublist.
  - apply StronglySorted_inv in Hk as [Hk _]. by apply IH.
Qed.

Lemma clusterBounds_structural_from (pre rest : list (list Q))
    (acc : list (option Q)) :
  foldl (fun bounds i =>
           if skipsCluster (pre ++ rest) i then bounds
           else bounds ++ [boundOfCluster (pre ++ rest) i])
        acc (seq (length pre) (length rest))
  = acc ++ boundsAfter (last pre) rest.
Proof.
  revert pre acc. induction rest as [|c rest IH]; intros pre acc.
  - simpl. by rewrite app_nil_r.
  - cbn [length seq foldl boundsAfter].
    assert (Hskip : skipsCluster (pre ++ c :: rest) (length pre)
                    = skipAfter (last pre) c).
    { unfold skipsCluster, skipAfter.
      rewrite lookup_app_r, Nat.sub_diag by lia. cbn [lookup list_lookup].
      destruct pre as [|p0 pre'] using rev_ind; [done|].
      rewrite last_snoc, length_app. cbn [length].
      replace (0 <? length pre' + 1)%nat with true
        by (symmetry; apply Nat.ltb_lt; lia).
      rewrite <- app_assoc. rewrite lookup_app_r by lia.
      replace (length pre' + 1 - 1 - length pre')%nat with 0%nat by lia.
      done. }
    assert (Hbound : boundOfCluster (pre ++ c :: rest) (length pre) = lastOf c).
    { unfold boundOfCluster. rewrite lookup_app_r, Nat.sub_diag by lia. done. }
    rewrite Hskip, Hbound.
    replace (pre ++ c :: rest) with ((pre ++ [c]) ++ rest)
      by (by rewrite <- app_assoc).
    replace (S (length pre)) with (length (pre ++ [c]))
      by (rewrite length_app; simpl; lia).
    rewrite IH, last_snoc.
    destruct (skipAfter (last pre) c); [done|]. by rewrite <- app_assoc.
Qed.

Lemma clusterBounds_structural (clusters : list (list Q)) :
  clusterBounds clusters = boundsAfter None clusters.
Proof.
  exact (clusterBounds_structural_from [] clusters []).
Qed.

(** ** Order of the bounds *)

#[global] Instance Qle_transitive : Transitive Qle.
Proof. intros x y z. apply Qle_trans. Qed.

#[global] Instance Qle_total : Total Qle.
Proof.
  intros x y. destruct (Qlt_le_dec y x) as [H|H]; [right | left]; lra.
Qed.

Lemma StronglySorted_last_max (l : list Q) (m : Q) :
  StronglySorted Qle l -> last l = Some m -> forall z, z ∈ l -> (z <= m)%Q.
Proof.
  intros Hs Hm z Hz. apply last_Some in Hm as [l' ->].
  apply elem_of_app in Hz as [Hz | Hz].
  - eapply (StronglySorted_app_1_elem_of Qle); [done | done |].
    by apply list_elem_of_singleton.
  - apply list_elem_of_singleton in Hz as ->. lra.
Qed.

Lemma boundsAfter_sublist (prev : option (list Q)) (clusters : list (list Q)) :
  Forall (fun c => c <> []) clusters ->
  exists bounds,
    boundsAfter prev clusters = Some <$> bounds
    /\ bounds `sublist_of` concat clusters
    /\ (length bounds <= length clusters)%nat.
Proof.
  intros Hne. revert prev.
  induction Hne as [|c rest Hc _ IH]; intros prev.
  - exists []. done.
  - destruct (IH (Some c)) as (bounds & Hb & Hsub & Hlen).
    destruct (last c) as [l|] eqn:Hl; [|by apply last_None in Hl].
    cbn [boundsAfter concat]. rewrite Hb, lastOf_last, Hl.
    destruct (skipAfter prev c).
    + exists bounds. split; [done|]. split; [by apply sublist_inserts_l|].
      simpl. lia.
    + exists (l :: bounds). split; [done|]. split; [|simpl; lia].
      apply last_Some in Hl as [c' ->].
      apply (sublist_app [l] (c' ++ [l]) bounds); [|done].
      by apply sublist_inserts_l.
Qed.

Lemma skipAfter_true (prev : option (list Q)) (c : list Q) :
  skipAfter prev c = true ->
  exists x p y, prev = Some p /\ c = [x] /\ last p = Some y /\ (x == y)%Q.
Proof.
  unfold skipAfter. destruct prev as [p|]; [|done].
  intros H. apply andb_true_iff in H as [Hlen Hx].
  apply Nat.eqb_eq in Hlen. destruct c as [|x [|? ?]]; try done.
  simpl in Hx. rewrite lastOf_last in Hx.
  destruct (last p) as [y|] eqn:Hy; [|done].
  simpl in Hx. apply Qeq_bool_iff in Hx. by exists x, p, y.
Qed.

Lemma boundsAfter_last (prev : option (list Q)) (clusters : list (list Q)) :
  Forall (fun c => c <> []) clusters ->
  StronglySorted Qle (concat clusters) ->
  (boundsAfter prev clusters = []
   /\ (clusters = []
       \/ exists p y, prev = Some p /\ last p = Some y
                      /\ forall z, z ∈ concat clusters -> (z <= y)%Q))
  \/ (exists m, last (boundsAfter prev clusters) = Some (Some m)
                /\ m ∈ concat clusters
                /\ forall z, z ∈ concat clusters -> (z <= m)%Q).
Proof.
  intros Hne. revert prev.
  induction Hne as [|c rest Hc _ IH]; intros prev Hsorted.
  - left. split; [done | by left].
  - cbn [concat] in Hsorted |- *.
    pose proof (StronglySorted_app_1_l _ _ _ Hsorted) as Hsc.
    pose proof (StronglySorted_app_1_r _ _ _ Hsorted) as Hsr.
    pose proof (fun x1 x2 =>
                  StronglySorted_app_1_elem_of Qle c (concat rest) x1 x2 Hsorted)
      as Hcr.
    destruct (last c) as [l|] eqn:Hl; [|by apply last_None in Hl].
    assert (Hrest :
               (boundsAfter (Some c) rest = []
                /\ (rest = []
                    \/ exists p y, Some c = Some p /\ last p = Some y
                         /\ forall z, z ∈ concat rest -> (z <= y)%Q)) ->
               forall z, z ∈ concat rest -> (z <= l)%Q).
    { intros [_ [-> | (p & y & [= <-] & Hy & Hall)]] z Hz.
      - by apply elem_of_nil in Hz.
      - rewrite Hl in Hy. injection Hy as <-. by apply Hall. }
    cbn [boundsAfter]. destruct (skipAfter prev c) eqn:Hskip.
    + apply skipAfter_true in Hskip as (x & p & y & -> & -> & Hy & Hxy).
      injection Hl as <-. cbn [app].
      destruct (IH (Some [x]) Hsr) as [Hnone | (m & Hm & Hin & Hmax)].
      * left. split; [apply Hnone|]. right. exists p, y.
        split; [done|]. split; [done|].
        intros z Hz. apply elem_of_cons in Hz as [-> | Hz]; [lra|].
        specialize (Hrest Hnone z Hz). lra.
      * right. exists m. split; [done|].
        split; [by apply elem_of_cons; right|].
        intros z Hz. apply elem_of_cons in Hz as [-> | Hz]; [|by apply Hmax].
        apply (Hcr x m); [by apply list_elem_of_singleton | done].
    + right. rewrite lastOf_last, Hl.
      destruct (IH (Some c) Hsr) as [Hnone | (m & Hm & Hin & Hmax)].
      * exists l. destruct Hnone as [Hnil Hcase]. rewrite Hnil.
        split; [done|]. split.
        -- apply elem_of_app. left. by apply last_Some_elem_of.
        -- intros z Hz. apply elem_of_app in Hz as [Hz | Hz].
           ++ by apply (StronglySorted_last_max c).
           ++ by apply (Hrest (conj Hnil Hcase)).
      * exists m. split.
        -- cbn [app]. rewrite last_cons, Hm. done.
        -- split; [by apply elem_of_app; right|].
           intros z Hz. apply elem_of_app in Hz as [Hz | Hz]; [|by apply Hmax].
           apply (Hcr z m Hz Hin).
Qed.

Lemma upperBound_imap (f : nat -> option Q -> list (option Z))
    (bounds : list (option Q)) :
  upperBound <$> imap (fun i ub => mkBin ub (f i ub)) bounds = bounds.
Proof.
  apply list_eq. intros i.
  rewrite list_lookup_fmap, list_lookup_imap.
  by destruct (bounds !! i).
Qed.

Lemma colourBounds_bounds (g : ImageData) (bounds : list (option Q)) :
  upperBound <$> colourBounds g bounds = bounds.
Proof. unfold colourBounds. apply upperBound_imap. Qed.

Lemma clusterBins_bounds simplestats numericalValues binCount g clusters :
  ckmeans simplestats numericalValues binCount = JS.Ok clusters ->
  clusterBins simplestats numericalValues binCount g
  = JS.Ok (colourBounds g (clusterBounds clusters)).
Proof. intros H. unfold clusterBins. by rewrite H. Qed.

Lemma clusterBins_within (simplestats : SimpleStatistics)
    (numericalValues : list Q) (k : Z) (g : ImageData) :
  ckmeansContract simplestats ->
  numericalValues <> [] ->
  1 <= k <= Z.of_nat (length numericalValues) ->
  exists bins,
    clusterBins simplestats numericalValues (Some k) g = JS.Ok bins
    /\ binsWithin k numericalValues bins.
Proof.
  intros Hck Hne Hk.
  destruct (Hck numericalValues k Hk)
    as (clusters & Hok & Hnonempty & Hperm & Hsorted & Hlen).
  rewrite (clusterBins_bounds _ _ _ _ _ Hok). eexists. split; [done|].
  destruct (boundsAfter_sublist None clusters Hnonempty)
    as (bounds & Hb & Hsub & Hblen).
  exists bounds. rewrite colourBounds_bounds.
  rewrite clusterBounds_structural.
  split; [done|]. split; [by eapply StronglySorted_sublist|].
  split; [lia|].
  destruct (boundsAfter_last None clusters Hnonempty Hsorted)
    as [[_ [Hnil | (p & y & [=] & _)]] | (m & Hm & Hin & Hmax)].
  - exfalso. rewrite Hnil in Hperm. simpl in Hperm.
    by apply Permutation_nil_l in Hperm.
  - exists m. split.
    + rewrite Hb, fmap_last in Hm.
      destruct (last bounds); simpl in Hm; congruence.
    + split.
      * exists m. split; [by rewrite <- Hperm | reflexivity].
      * intros x Hx. apply Hmax. by rewrite Hperm.
Qed.

(** ** The quantile branch *)

Lemma position_le (a b k : Z) :
  0 < k -> a <= b -> (inject_Z a / inject_Z k <= inject_Z b / inject_Z k)%Q.
Proof.
  intros Hk Hab. unfold Qdiv. apply Qmult_le_compat_r.
  - by rewrite <- Zle_Qle.
  - apply Qinv_le_0_compat. change 0%Q with (inject_Z 0).
    rewrite <- Zle_Qle. lia.
Qed.

Lemma position_one (k : Z) : 0 < k -> (inject_Z k / inject_Z k == 1)%Q.
Proof.
  intros Hk. apply Qmult_inv_r. intros H.
  unfold Qeq in H. simpl in H. lia.
Qed.

Lemma position_pos (a k : Z) :
  0 < k -> 0 < a -> (0 < inject_Z a / inject_Z k)%Q.
Proof.
  intros Hk Ha. apply Qlt_shift_div_l.
  - change 0%Q with (inject_Z 0). rewrite <- Zlt_Qlt. lia.
  - rewrite Qmult_0_l. change 0%Q with (inject_Z 0). rewrite <- Zlt_Qlt. lia.
Qed.

(** The position handed to [quantile] for bin [i] of [k]: the rounded
    quotient; it lies in [(0, 1]] and is 1 for the last bin. *)
Lemma div_position (a k : Z) :
  0 < a <= k ->
  (0 < JS.div (inject_Z a) (inject_Z k))%Q
  /\ (JS.div (inject_Z a) (inject_Z k) <= 1)%Q.
Proof.
  intros Ha. unfold JS.div. split.
  - apply fl_pos, position_pos; lia.
  - apply (fl_le_Z _ 1); [done|].
    rewrite <- (position_one k) by lia. apply position_le; lia.
Qed.

Lemma div_position_le (a b k : Z) :
  0 < k -> a <= b ->
  (JS.div (inject_Z a) (inject_Z k) <= JS.div (inject_Z b) (inject_Z k))%Q.
Proof. intros Hk Hab. unfold JS.div. by apply fl_mono, position_le. Qed.

Lemma div_position_one (k : Z) :
  0 < k -> (JS.div (inject_Z k) (inject_Z k) == 1)%Q.
Proof.
  intros Hk. unfold JS.div. rewrite position_one by done. by apply (fl_Z 1).
Qed.

Lemma quantileBins_bounds simplestats numericalValues k g :
  upperBound <$> quantileBins simplestats numericalValues (Some k) g
  = Some <$> ((fun i : nat =>
                 quantile simplestats numericalValues
                   (JS.div (inject_Z (Z.of_nat i + 1)) (inject_Z k)))
              <$> seq 0 (Z.to_nat k)).
Proof.
  unfold quantileBins. rewrite <- !list_fmap_compose. done.
Qed.

Lemma StronglySorted_fmap_seq (f : nat -> Q) (a n : nat) :
  (forall i j, (a <= i <= j)%nat -> (j < a + n)%nat -> (f i <= f j)%Q) ->
  StronglySorted Qle (f <$> seq a n).
Proof.
  revert a. induction n as [|n IH]; intros a Hf; simpl; constructor.
  - apply IH. intros i j Hij Hj. apply Hf; lia.
  - apply Forall_forall. intros y Hy.
    apply list_elem_of_fmap in Hy as (j & -> & Hj).
    apply elem_of_seq in Hj. apply Hf; lia.
Qed.

Lemma quantileBins_within (simplestats : SimpleStatistics)
    (numericalValues : list Q) (k : Z) (g : ImageData) :
  quantileContract simplestats ->
  numericalValues <> [] ->
  1 <= k ->
  binsWithin k numericalValues
    (quantileBins simplestats numericalValues (Some k) g).
Proof.
  intros [Hmono Hone] Hne Hk. eexists. split; [apply quantileBins_bounds|].
  split; [|split].
  - apply StronglySorted_fmap_seq. intros i j Hij Hj.
    apply Hmono; [done | | |].
    + apply div_position; lia.
    + apply div_position_le; lia.
    + apply div_position; lia.
  - rewrite length_fmap, length_seq. lia.
  - exists (quantile simplestats numericalValues
              (JS.div (inject_Z (Z.of_nat (Z.to_nat k - 1) + 1)) (inject_Z k))).
    split.
    + replace (Z.to_nat k) with (S (Z.to_nat k - 1)) at 1 by lia.
      rewrite seq_S, fmap_app. cbn [fmap list_fmap]. by rewrite last_snoc.
    + apply Hone; [done|].
      replace (Z.of_nat (Z.to_nat k - 1) + 1) with k by lia.
      apply div_position_one. lia.
Qed.

(** ** The bins of a column *)

Lemma buildBinColors_none simplestats column style g :
  values column = None
  \/ matchNone (colorBinMethod style) = true
  \/ (exists b, colorBins style = Some b /\ b <= 0) ->
  buildBinColors simplestats column style g = JS.Ok None.
Proof.
  unfold buildBinColors. intros [-> | H]; [done|].
  destruct (values column); [|done].
  destruct H as [-> | (b & -> & Hb)].
  - by rewrite orb_true_r.
  - by replace (b <=? 0) with true by (symmetry; by apply Z.leb_le).
Qed.

Lemma buildBinColors_some simplestats column style g vs b :
  values column = Some vs ->
  colorBins style = Some b ->
  1 <= b ->
  matchNone (colorBinMethod style) = false ->
  let numericalValues := numericalValuesOf vs in
  let binCount := Some (Z.min b (Z.of_nat (length numericalValues))) in
  buildBinColors simplestats column style g
  = if usesQuantile (colorBinMethod style) numericalValues
    then JS.Ok (Some (quantileBins simplestats numericalValues binCount g))
    else JS.mapResult Some
           (clusterBins simplestats numericalValues binCount g).
Proof.
  intros Hvs Hb Hb1 Hnone. unfold buildBinColors, binCountOf.
  rewrite Hvs, Hb, Hnone.
  replace (b <=? 0) with false by (symmetry; apply Z.leb_gt; lia).
  done.
Qed.

Lemma buildBinColors_within
    (simplestats : SimpleStatistics) (column : TableColumn)
    (style : TableStyle) (g : ImageData) (vs : list JS.value) (b : Z) :
  quantileContract simplestats ->
  ckmeansContract simplestats ->
  values column = Some vs ->
  numericalValuesOf vs <> [] ->
  colorBins style = Some b ->
  1 <= b ->
  matchNone (colorBinMethod style) = false ->
  exists bins,
    buildBinColors simplestats column style g = JS.Ok (Some bins)
    /\ binsWithin (Z.min b (Z.of_nat (length (numericalValuesOf vs))))
         (numericalValuesOf vs) bins.
Proof.
  intros Hq Hck Hvs Hne Hb Hb1 Hnone.
  rewrite (buildBinColors_some simplestats column style g vs b) by done.
  assert (1 <= Z.of_nat (length (numericalValuesOf vs))).
  { destruct (numericalValuesOf vs); [done | simpl; lia]. }
  destruct (usesQuantile _ _).
  - eexists. split; [done|]. apply quantileBins_within; [done | done | lia].
  - destruct (clusterBins_within simplestats (numericalValuesOf vs)
                (Z.min b (Z.of_nat (length (numericalValuesOf vs)))) g)
      as (bins & -> & Hwithin); [done | done | lia |].
    by exists bins.
Qed.

(** C1 (as amended): for a column with at least one number, a requested
    bin count [b >= 1] and a method that does not contain "none", the bins
    built have upper bounds that are numbers and do not decrease, there
    are at most [min b n] of them, where [n] is the number of numeric
    values, and the last upper bound is the largest numeric value. This
    holds for any statistics package whose [quantile] does not decrease in
    [p] and is the maximum at [p = 1], and whose [ckmeans] cuts the sorted
    data into non-empty clusters. *)
Theorem buildBinColors_bounds
    (simplestats : SimpleStatistics) (column : TableColumn)
    (style : TableStyle) (g : ImageData) (vs : list JS.value) (b : Z) :
  quantileContract simplestats ->
  ckmeansContract simplestats ->
  values column = Some vs ->
  numericalValuesOf vs <> [] ->
  colorBins style = Some b ->
  1 <= b ->
  matchNone (colorBinMethod style) = false ->
  exists bins,
    buildBinColors simplestats column style g = JS.Ok (Some bins)
    /\ binsWithin (Z.min b (Z.of_nat (length (numericalValuesOf vs))))
         (numericalValuesOf vs) bins.
Proof. apply buildBinColors_within. Qed.

Lemma usesQuantile_iff (method : string) (numericalValues : list Q) :
  usesQuantile method numericalValues = true
  <-> method = "quantile"
      \/ (method = "auto" /\ (1000 < length numericalValues)%nat).
Proof.
  unfold usesQuantile.
  rewrite orb_true_iff, andb_true_iff, !String.eqb_eq, Nat.ltb_lt. done.
Qed.

(** ** The statistics package as the spec words it *)

Lemma numericSort_sorted (l : list Q) : StronglySorted Qle (numericSort l).
Proof. apply (StronglySorted_merge_sort Qle). Qed.

Lemma numericSort_perm (l : list Q) : numericSort l ≡ₚ l.
Proof. apply merge_sort_Permutation. Qed.

Lemma numericSort_length (l : list Q) : length (numericSort l) = length l.
Proof. by rewrite numericSort_perm. Qed.

Lemma StronglySorted_lookup_le (l : list Q) (i j : nat) (x y : Q) :
  StronglySorted Qle l -> (i <= j)%nat ->
  l !! i = Some x -> l !! j = Some y -> (x <= y)%Q.
Proof.
  intros Hs. revert i j. induction Hs as [|a l Hs IH Ha]; intros i j Hij Hx Hy.
  - done.
  - destruct i as [|i], j as [|j]; simpl in *.
    + injection Hx as <-. injection Hy as <-. lra.
    + injection Hx as <-. rewrite Forall_forall in Ha. apply Ha.
      by eapply list_elem_of_lookup_2.
    + lia.
    + apply (IH i j); [lia | done | done].
Qed.

(** The value interpolated at the fractional index [h] of a sorted list. *)
Lemma quantileType7_unfold (sample : list Q) (p : Q) :
  let sorted := numericSort sample in
  let h := ((inject_Z (Z.of_nat (length sorted)) - 1) * p)%Q in
  forall xlo,
    sorted !! Z.to_nat (Qfloor h) = Some xlo ->
    (quantileType7 sample p
     == xlo + (h - inject_Z (Qfloor h))
              * (default xlo (sorted !! Z.to_nat (Qfloor h + 1)) - xlo))%Q.
Proof.
  intros sorted h xlo Hlo. unfold quantileType7. fold sorted. fold h.
  rewrite Hlo. apply Qred_correct.
Qed.

Lemma fractional_index (n : nat) (p : Q) :
  (1 <= n)%nat -> (0 <= p)%Q -> (p <= 1)%Q ->
  let h := ((inject_Z (Z.of_nat n) - 1) * p)%Q in
  0 <= Qfloor h <= Z.of_nat n - 1
  /\ (inject_Z (Qfloor h) <= h)%Q
  /\ (h < inject_Z (Qfloor h) + 1)%Q.
Proof.
  intros Hn Hp0 Hp1 h.
  assert (HN : (0 <= inject_Z (Z.of_nat n) - 1)%Q).
  { assert (inject_Z 1 <= inject_Z (Z.of_nat n))%Q by (rewrite <- Zle_Qle; lia).
    change (inject_Z 1) with 1%Q in *. lra. }
  split; [split|split].
  - change 0 with (Qfloor (inject_Z 0)). apply Qfloor_resp_le.
    change (inject_Z 0) with 0%Q. subst h. nra.
  - rewrite <- (Qfloor_Z (Z.of_nat n - 1)). apply Qfloor_resp_le.
    unfold Zminus. rewrite inject_Z_plus.
    change (inject_Z (- (1))) with (-1 # 1)%Q. subst h. nra.
  - apply Qfloor_le.
  - pose proof (Qlt_floor h) as H. rewrite inject_Z_plus in H.
    change (inject_Z 1) with 1%Q in H. done.
Qed.

Lemma quantileType7_mono (sample : list Q) (p p' : Q) :
  sample <> [] -> (0 < p)%Q -> (p <= p')%Q -> (p' <= 1)%Q ->
  (quantileType7 sample p <= quantileType7 sample p')%Q.
Proof.
  intros Hne Hp Hpp' Hp'.
  set (sorted := numericSort sample).
  set (n := length sorted).
  assert (Hn : (1 <= n)%nat).
  { subst n sorted. rewrite numericSort_length.
    destruct sample; [done | simpl; lia]. }
  pose proof (numericSort_sorted sample) as Hsorted. fold sorted in Hsorted.
  set (h := ((inject_Z (Z.of_nat n) - 1) * p)%Q).
  set (h' := ((inject_Z (Z.of_nat n) - 1) * p')%Q).
  destruct (fractional_index n p Hn) as ([Hlo0 Hlo1] & Hfl & Hfu); [lra | lra |].
  destruct (fractional_index n p' Hn) as ([Hlo0' Hlo1'] & Hfl' & Hfu'); [lra | lra |].
  fold h in Hlo0, Hlo1, Hfl, Hfu. fold h' in Hlo0', Hlo1', Hfl', Hfu'.
  assert (HN : (0 <= inject_Z (Z.of_nat n) - 1)%Q).
  { assert (inject_Z 1 <= inject_Z (Z.of_nat n))%Q by (rewrite <- Zle_Qle; lia).
    change (inject_Z 1) with 1%Q in *. lra. }
  assert (Hhh' : (h <= h')%Q) by (subst h h'; nra).
  assert (Hll' : Qfloor h <= Qfloor h') by (by apply Qfloor_resp_le).
  destruct (lookup_lt_is_Some_2 sorted (Z.to_nat (Qfloor h))) as [xlo Hxlo];
    [fold n; lia|].
  destruct (lookup_lt_is_Some_2 sorted (Z.to_nat (Qfloor h'))) as [xlo' Hxlo'];
    [fold n; lia|].
  rewrite (quantileType7_unfold sample p xlo) by done.
  rewrite (quantileType7_unfold sample p' xlo') by done.
  fold sorted. fold n. fold h. fold h'.
  set (xhi := default xlo (sorted !! Z.to_nat (Qfloor h + 1))).
  set (xhi' := default xlo' (sorted !! Z.to_nat (Qfloor h' + 1))).
  assert (Hhi : (xlo <= xhi)%Q).
  { subst xhi. destruct (sorted !! Z.to_nat (Qfloor h + 1)) as [x|] eqn:E; simpl.
    - apply (StronglySorted_lookup_le sorted (Z.to_nat (Qfloor h))
               (Z.to_nat (Qfloor h + 1))); [done | lia | done | done].
    - lra. }
  assert (Hhi' : (xlo' <= xhi')%Q).
  { subst xhi'. destruct (sorted !! Z.to_nat (Qfloor h' + 1)) as [x|] eqn:E; simpl.
    - apply (StronglySorted_lookup_le sorted (Z.to_nat (Qfloor h'))
               (Z.to_nat (Qfloor h' + 1))); [done | lia | done | done].
    - lra. }
  destruct (Z.eq_dec (Qfloor h) (Qfloor h')) as [Heq | Hlt].
  - assert (xlo' = xlo) as -> by (rewrite <- Heq in Hxlo'; congruence).
    assert (xhi' = xhi) as -> by (subst xhi xhi'; by rewrite <- Heq).
    rewrite <- Heq. nra.
  - assert (Hnext : sorted !! Z.to_nat (Qfloor h + 1) = Some xhi).
    { subst xhi.
      destruct (lookup_lt_is_Some_2 sorted (Z.to_nat (Qfloor h + 1))) as [x ->];
        [fold n; lia | done]. }
    assert (Hmid : (xhi <= xlo')%Q).
    { apply (StronglySorted_lookup_le sorted (Z.to_nat (Qfloor h + 1))
               (Z.to_nat (Qfloor h'))); [done | lia | done | done]. }
    nra.
Qed.

Lemma quantileType7_one (sample : list Q) (p : Q) :
  sample <> [] -> (p == 1)%Q -> isMaximum (quantileType7 sample p) sample.
Proof.
  intros Hne Hp.
  set (sorted := numericSort sample).
  set (n := length sorted).
  assert (Hn : (1 <= n)%nat).
  { subst n sorted. rewrite numericSort_length.
    destruct sample; [done | simpl; lia]. }
  pose proof (numericSort_sorted sample) as Hsorted. fold sorted in Hsorted.
  set (h := ((inject_Z (Z.of_nat n) - 1) * p)%Q).
  assert (Hh : (h == inject_Z (Z.of_nat n - 1))%Q).
  { subst h. rewrite Hp. unfold Zminus. rewrite inject_Z_plus.
    change (inject_Z (- (1))) with (-1 # 1)%Q. ring. }
  assert (Hfloor : Qfloor h = Z.of_nat n - 1).
  { rewrite (Qfloor_comp _ _ Hh). apply Qfloor_Z. }
  destruct (lookup_lt_is_Some_2 sorted (Z.to_nat (Qfloor h))) as [xlo Hxlo];
    [fold n; lia|].
  assert (Hlast : last sorted = Some xlo).
  { rewrite last_lookup. fold n. rewrite <- Hxlo. f_equal. lia. }
  assert (Hv : (quantileType7 sample p == xlo)%Q).
  { rewrite (quantileType7_unfold sample p xlo) by done.
    fold sorted. fold n. fold h. rewrite Hfloor.
    rewrite (lookup_ge_None_2 sorted (Z.to_nat (Z.of_nat n - 1 + 1)))
      by (fold n; lia).
    simpl. ring. }
  assert (Hperm : sorted ≡ₚ sample) by apply numericSort_perm.
  split.
  - exists xlo. split; [|by symmetry].
    rewrite <- Hperm. by eapply list_elem_of_lookup_2.
  - intros x Hx. rewrite Hv.
    apply (StronglySorted_last_max sorted); [done | done |].
    by rewrite Hperm.
Qed.

Lemma splits_spec (k : nat) (l : list Q) (s : list (list Q)) :
  s ∈ splits k l ->
  concat s = l /\ Forall (fun c => c <> []) s /\ length s = k.
Proof.
  revert l s. induction k as [|k IH]; intros l s Hs; simpl in Hs.
  - destruct l; [|by apply elem_of_nil in Hs].
    apply list_elem_of_singleton in Hs as ->. done.
  - apply list_elem_of_bind in Hs as (j & Hs & Hj).
    apply elem_of_seq in Hj.
    apply list_elem_of_fmap in Hs as (s' & -> & Hs').
    destruct (IH _ _ Hs') as (Hconcat & Hall & Hlen).
    split; [|split].
    + simpl. rewrite Hconcat. apply take_drop.
    + constructor; [|done]. intros Htake.
      apply (f_equal length) in Htake. rewrite length_take in Htake.
      simpl in Htake. lia.
    + simpl. by rewrite Hlen.
Qed.

Lemma splits_inhabited (k : nat) (l : list Q) :
  (1 <= k <= length l)%nat \/ (k = 0%nat /\ l = []) ->
  exists s, s ∈ splits k l.
Proof.
  revert l. induction k as [|k IH]; intros l Hk.
  - destruct Hk as [? | [_ ->]]; [lia|]. exists []. by apply list_elem_of_singleton.
  - destruct Hk as [Hk | [? _]]; [|lia].
    destruct (IH (drop (length l - k) l)) as [s' Hs'].
    { rewrite length_drop. destruct k; [right | left; lia].
      split; [done|]. apply drop_ge. lia. }
    exists (take (length l - k) l :: s'). simpl.
    apply list_elem_of_bind. exists (length l - k)%nat. split.
    + apply list_elem_of_fmap. by exists s'.
    + apply elem_of_seq. lia.
Qed.

Lemma cheapest_spec (candidates : list (list (list Q))) :
  candidates <> [] ->
  exists c, cheapest candidates = Some c
            /\ c ∈ candidates
            /\ forall s, s ∈ candidates -> (partitionCost c <= partitionCost s)%Q.
Proof.
  induction candidates as [|c rest IH]; [done|]. intros _. simpl.
  destruct rest as [|c' rest'].
  - exists c. simpl. split; [done|]. split; [by apply list_elem_of_singleton|].
    intros s Hs. apply list_elem_of_singleton in Hs as ->. lra.
  - destruct IH as (best & -> & Hin & Hmin); [done|].
    destruct (Qle_bool (partitionCost c) (partitionCost best)) eqn:E.
    + apply Qle_bool_iff in E. exists c. split; [done|].
      split; [by apply elem_of_cons; left|].
      intros s Hs. apply elem_of_cons in Hs as [-> | Hs]; [lra|].
      specialize (Hmin s Hs). lra.
    + assert (partitionCost best < partitionCost c)%Q.
      { apply Qnot_le_lt. intros H. apply Qle_bool_iff in H. congruence. }
      exists best. split; [done|]. split; [by apply elem_of_cons; right|].
      intros s Hs. apply elem_of_cons in Hs as [-> | Hs]; [lra|].
      by apply Hmin.
Qed.

Lemma ckmeansOptimal_spec (data : list Q) (k : Z) :
  1 <= k <= Z.of_nat (length data) ->
  exists clusters,
    ckmeansOptimal data (Some k) = JS.Ok clusters
    /\ clusters ∈ splits (Z.to_nat k) (numericSort data)
    /\ (forall s, s ∈ splits (Z.to_nat k) (numericSort data) ->
                  (partitionCost clusters <= partitionCost s)%Q).
Proof.
  intros Hk. unfold ckmeansOptimal.
  replace (1 <=? k) with true by (symmetry; apply Z.leb_le; lia).
  replace (k <=? Z.of_nat (length data)) with true
    by (symmetry; apply Z.leb_le; lia).
  cbn [andb].
  destruct (splits_inhabited (Z.to_nat k) (numericSort data)) as [s Hs].
  { rewrite numericSort_length. left; lia. }
  destruct (cheapest_spec (splits (Z.to_nat k) (numericSort data)))
    as (c & -> & Hin & Hmin).
  { intros Hnil. rewrite Hnil in Hs. by apply elem_of_nil in Hs. }
  by exists c.
Qed.

Lemma specStatistics_quantileContract : quantileContract specStatistics.
Proof.
  split.
  - intros sample p p'. apply quantileType7_mono.
  - intros sample p. apply quantileType7_one.
Qed.

Lemma specStatistics_ckmeansContract : ckmeansContract specStatistics.
Proof.
  intros data k Hk. cbn [ckmeans specStatistics].
  destruct (ckmeansOptimal_spec data k Hk) as (clusters & -> & Hin & _).
  exists clusters. split; [done|].
  apply splits_spec in Hin as (Hconcat & Hall & Hlen).
  split; [done|]. split; [|split].
  - rewrite Hconcat. apply numericSort_perm.
  - rewrite Hconcat. apply numericSort_sorted.
  - rewrite Hlen. lia.
Qed.

Lemma specStatistics_ckmeansMinimal : ckmeansMinimal specStatistics.
Proof. intros data k Hk. by apply ckmeansOptimal_spec. Qed.

(** ** Main results on the bins *)

Lemma numericalValuesOf_numbers (numbers : list Q) :
  numericalValuesOf (JS.VNumber <$> numbers) = numbers.
Proof.
  unfold numericalValuesOf. induction numbers as [|x l IH]; [done|].
  change (x :: omap JS.isNumber (JS.VNumber <$> l) = x :: l). by rewrite IH.
Qed.

Lemma quantileBins_length simplestats numericalValues k g :
  length (quantileBins simplestats numericalValues (Some k) g) = Z.to_nat k.
Proof. unfold quantileBins. by rewrite length_fmap, length_seq. Qed.

(** C1 (as stated) fails: two equal values and two bins requested with the
    quantile method give two bins, more than the one distinct value. *)
Lemma buildBinColors_exceeds_distinct_values :
  let numbers := [1%Q; 1%Q] in
  ~ exists bins,
      buildBinColors specStatistics (columnOf numbers) (styleOf 2 "quantile")
        exampleGradient = JS.Ok (Some bins)
      /\ binsWithin (Z.min 2 (Z.of_nat (length (distinctValues numbers))))
           numbers bins.
Proof.
  intros numbers (bins & Hbins & bounds & Hbounds & _ & Hlen & _).
  vm_compute in Hbins. injection Hbins as <-.
  apply (f_equal length) in Hbounds. rewrite !length_fmap in Hbounds.
  simpl in Hbounds. rewrite <- Hbounds in Hlen. vm_compute in Hlen.
  by apply Hlen.
Qed.

Lemma buildBinColors_bounds_witness :
  exists bins,
    buildBinColors specStatistics (columnOf [1%Q; 1%Q]) (styleOf 2 "quantile")
      exampleGradient = JS.Ok (Some bins)
    /\ binsWithin (Z.min 2 (Z.of_nat (length (numericalValuesOf
                                                 (JS.VNumber <$> [1%Q; 1%Q])))))
         (numericalValuesOf (JS.VNumber <$> [1%Q; 1%Q])) bins.
Proof.
  apply (buildBinColors_bounds specStatistics (columnOf [1%Q; 1%Q])
           (styleOf 2 "quantile") exampleGradient
           (JS.VNumber <$> [1%Q; 1%Q]) 2).
  - apply specStatistics_quantileContract.
  - apply specStatistics_ckmeansContract.
  - reflexivity.
  - discriminate.
  - reflexivity.
  - lia.
  - reflexivity.
Defined.

(** C2: the quantile branch is taken exactly when the method is "quantile",
    or is "auto" with more than 1000 numeric values; it then builds
    [min b n] bins ([b] the bins requested, [n] the number of numeric
    values) and the upper bound of bin [i] is
    [quantile(values, (i + 1) / min b n)], the quotient being the one the
    code computes (rounded to a double); otherwise the clusters are
    used. With the type-7 estimator, four bins of 1, ..., 8 have the upper
    bounds 2.75, 4.5, 6.25 and 8, the estimates at 25, 50, 75 and 100 per
    cent. *)
Theorem quantile_strategy :
  (forall method numericalValues,
      usesQuantile method numericalValues = true
      <-> method = "quantile"
          \/ (method = "auto" /\ (1000 < length numericalValues)%nat))
  /\ (forall simplestats column style g vs b,
        values column = Some vs ->
        colorBins style = Some b ->
        1 <= b ->
        matchNone (colorBinMethod style) = false ->
        let numericalValues := numericalValuesOf vs in
        let binCount := Z.min b (Z.of_nat (length numericalValues)) in
        (usesQuantile (colorBinMethod style) numericalValues = true ->
         exists bins,
           buildBinColors simplestats column style g = JS.Ok (Some bins)
           /\ bins = quantileBins simplestats numericalValues (Some binCount) g
           /\ length bins = Z.to_nat binCount
           /\ forall i : nat,
                (i < Z.to_nat binCount)%nat ->
                upperBound <$> bins !! i
                = Some (Some (quantile simplestats numericalValues
                                (JS.div (inject_Z (Z.of_nat i + 1))
                                        (inject_Z binCount)))))
        /\ (usesQuantile (colorBinMethod style) numericalValues = false ->
            buildBinColors simplestats column style g
            = JS.mapResult Some
                (clusterBins simplestats numericalValues (Some binCount) g)))
  /\ (forall g,
        let numbers := [1; 2; 3; 4; 5; 6; 7; 8]%Q in
        exists bins,
          buildBinColors specStatistics (columnOf numbers)
            (styleOf 4 "quantile") g = JS.Ok (Some bins)
          /\ upperBound <$> bins
             = [Some (quantileType7 numbers (1 # 4)%Q);
                Some (quantileType7 numbers (1 # 2)%Q);
                Some (quantileType7 numbers (3 # 4)%Q);
                Some (quantileType7 numbers 1%Q)]
          /\ upperBound <$> bins
             = [Some (11 # 4)%Q; Some (9 # 2)%Q; Some (25 # 4)%Q; Some 8%Q]).
Proof.
  split; [apply usesQuantile_iff|]. split.
  - intros simplestats column style g vs b Hvs Hb Hb1 Hnone numericalValues binCount.
    rewrite (buildBinColors_some simplestats column style g vs b) by done.
    fold numericalValues. fold binCount. split.
    + intros ->. eexists. split; [done|]. split; [done|].
      split; [apply quantileBins_length|].
      intros i Hi. rewrite <- list_lookup_fmap, quantileBins_bounds.
      rewrite !list_lookup_fmap, lookup_seq_lt by done. done.
    + by intros ->.
  - intros g numbers. eexists. split; [reflexivity|].
    split; vm_compute; reflexivity.
Qed.

Lemma quantile_strategy_witness :
  exists bins,
    buildBinColors specStatistics (columnOf [3%Q; 1%Q; 2%Q])
      (styleOf 2 "quantile") exampleGradient = JS.Ok (Some bins)
    /\ length bins = 2%nat
    /\ upperBound <$> bins !! 1%nat
       = Some (Some (quantileType7 [3%Q; 1%Q; 2%Q]
                       (JS.div (inject_Z 2) (inject_Z 2)))).
Proof.
  destruct quantile_strategy as (_ & H & _).
  destruct (H specStatistics (columnOf [3%Q; 1%Q; 2%Q]) (styleOf 2 "quantile")
              exampleGradient (JS.VNumber <$> [3%Q; 1%Q; 2%Q]) 2
              eq_refl eq_refl ltac:(lia) eq_refl) as [Hq _].
  destruct (Hq eq_refl) as (bins & Hbins & _ & Hlen & Hbound).
  exists bins. split; [exact Hbins|]. split; [exact Hlen|].
  exact (Hbound 1%nat ltac:(vm_compute; lia)).
Defined.

Lemma cheapestAll_minimal (candidates : list (list (list Q)))
    (c : list (list Q)) :
  c ∈ candidates ->
  (forall s, s ∈ candidates -> (partitionCost c <= partitionCost s)%Q) ->
  In c (cheapestAll candidates).
Proof.
  intros Hin Hmin. unfold cheapestAll. apply filter_In.
  split; [by apply list_elem_of_In|].
  apply forallb_forall. intros s Hs. apply Qle_bool_iff, Hmin.
  by apply list_elem_of_In.
Qed.

Lemma clusterBounds_nil (clusters : list (list Q)) :
  clusterBounds clusters = [] <-> clusters = [].
Proof.
  rewrite clusterBounds_structural. split; [|by intros ->].
  by destruct clusters.
Qed.

(** C3: on the clustering branch of [buildBinColors], when the package
    returns [clusters], the upper bounds of the bins built are the last
    values of the clusters kept, in order, and cluster [i] is left out
    exactly when it is not the first cluster, has one value, and that
    value is the last value of the cluster before it. On
    1, 1, 1, 2, 2, 2, 9, 9, 9 with three bins, whatever minimal-variance
    partition the package returns, the upper bounds are 1, 2, 9. *)
Theorem buildBinColors_drop_rule :
  (forall simplestats column style g vs b clusters,
      values column = Some vs ->
      colorBins style = Some b ->
      1 <= b ->
      matchNone (colorBinMethod style) = false ->
      usesQuantile (colorBinMethod style) (numericalValuesOf vs) = false ->
      ckmeans simplestats (numericalValuesOf vs)
        (Some (Z.min b (Z.of_nat (length (numericalValuesOf vs)))))
      = JS.Ok clusters ->
      exists bins kept,
        buildBinColors simplestats column style g = JS.Ok (Some bins)
        /\ StronglySorted lt kept
        /\ (forall i, i ∈ kept
                      <-> (i < length clusters)%nat
                          /\ ~ droppedCluster clusters i)
        /\ upperBound <$> bins
           = (fun i => clusters !! i ≫= last) <$> kept)
  /\ (forall simplestats g,
        ckmeansMinimal simplestats ->
        exists bins,
          buildBinColors simplestats
            (columnOf [1; 1; 1; 2; 2; 2; 9; 9; 9]%Q) (styleOf 3 "auto") g
          = JS.Ok (Some bins)
          /\ upperBound <$> bins = [Some 1%Q; Some 2%Q; Some 9%Q]).
Proof.
  split.
  - intros simplestats column style g vs b clusters Hvs Hb Hb1 Hnone Hq Hck.
    rewrite (buildBinColors_some simplestats column style g vs b) by done.
    rewrite Hq, (clusterBins_bounds _ _ _ _ _ Hck). cbn [JS.mapResult].
    exists (colourBounds g (clusterBounds clusters)),
           (filter (fun i => skipsCluster clusters i = false)
                   (seq 0 (length clusters))).
    split; [done|]. split; [|split].
    + eapply StronglySorted_sublist; [apply sublist_filter|].
      apply StronglySorted_lt_seq.
    + intros i. rewrite list_elem_of_filter, elem_of_seq.
      rewrite <- skipsCluster_dropped.
      destruct (skipsCluster clusters i); split; intros [? ?]; split;
        try done; lia.
    + rewrite colourBounds_bounds, clusterBounds_kept.
      apply list_fmap_ext. intros _ i _.
      unfold boundOfCluster. destruct (clusters !! i) as [c|]; [|done].
      apply lastOf_last.
  - intros simplestats g Hmin.
    set (numbers := [1; 1; 1; 2; 2; 2; 9; 9; 9]%Q).
    destruct (Hmin numbers 3) as (clusters & Hok & Hin & Hleast);
      [simpl; lia|].
    rewrite (buildBinColors_some simplestats (columnOf numbers)
               (styleOf 3 "auto") g (JS.VNumber <$> numbers) 3)
      by (done || lia).
    change (usesQuantile _ _) with false. cbv iota.
    change (numericalValuesOf _) with numbers.
    change (Z.min 3 _) with 3.
    rewrite (clusterBins_bounds _ _ _ _ _ Hok). cbn [JS.mapResult].
    eexists. split; [reflexivity|]. rewrite colourBounds_bounds.
    pose proof (cheapestAll_minimal _ _ Hin Hleast) as Hc.
    vm_compute in Hc. destruct Hc as [<- | []].
    vm_compute. reflexivity.
Qed.

Lemma buildBinColors_drop_rule_witness :
  let clusters := [[1%Q]; [1%Q]; [2%Q]] in
  exists bins kept,
    buildBinColors specStatistics (columnOf [1; 2; 1]%Q) (styleOf 3 "auto")
      exampleGradient = JS.Ok (Some bins)
    /\ StronglySorted lt kept
    /\ (forall i, i ∈ kept
                  <-> (i < length clusters)%nat
                      /\ ~ droppedCluster clusters i)
    /\ upperBound <$> bins = (fun i => clusters !! i ≫= last) <$> kept.
Proof.
  destruct buildBinColors_drop_rule as [H _].
  apply (H specStatistics (columnOf [1; 2; 1]%Q) (styleOf 3 "auto")
           exampleGradient (JS.VNumber <$> [1; 2; 1]%Q) 3).
  - reflexivity.
  - reflexivity.
  - lia.
  - reflexivity.
  - reflexivity.
  - vm_compute. reflexivity.
Defined.

(** The drop rule at work: of the clusters [1], [1], [2] the second is
    left out, and two bins are built where three were asked for. *)
Example buildBinColors_drops_a_cluster :
  ckmeans specStatistics [1; 2; 1]%Q (Some 3)
  = JS.Ok [[1%Q]; [1%Q]; [2%Q]]
  /\ buildBinColors specStatistics (columnOf [1; 2; 1]%Q) (styleOf 3 "auto")
       exampleGradient
     = JS.Ok (Some [ mkBin (Some 1%Q) [Some 32; Some 0; Some 200; Some 255];
                     mkBin (Some 2%Q) [Some 200; Some 0; Some 0; Some 255] ]).
Proof. split; vm_compute; reflexivity. Qed.

(** C7: no bin is built when the method is "none" (or contains it, in any
    letter case), when the number of bins requested is zero or less, or
    when the column has no values at all: the result is [undefined]. When
    binning is asked for and the column holds no number, the quantile
    branch returns the empty array; the clustering branch has no guard of
    its own and calls [ckmeans([], 0)]: the result is what that call
    gives, an error it throws is thrown on, and the empty array is
    returned exactly when the call returns no cluster. For a column that
    holds the values 'a' and null, with seven bins and the method "auto",
    a package that refuses a request for no cluster makes [buildBinColors]
    and [generateLegend] throw. *)
Theorem buildBinColors_no_bins :
  (forall simplestats column style g,
      colorBinMethod style = "none"
      \/ matchNone (colorBinMethod style) = true
      \/ (exists b, colorBins style = Some b /\ b <= 0)
      \/ values column = None ->
      buildBinColors simplestats column style g = JS.Ok None)
  /\ (forall simplestats column style g vs b,
        values column = Some vs ->
        numericalValuesOf vs = [] ->
        colorBins style = Some b ->
        1 <= b ->
        matchNone (colorBinMethod style) = false ->
        (usesQuantile (colorBinMethod style) [] = true ->
         buildBinColors simplestats column style g = JS.Ok (Some []))
        /\ (usesQuantile (colorBinMethod style) [] = false ->
            buildBinColors simplestats column style g
            = JS.mapResult
                (fun clusters => Some (colourBounds g (clusterBounds clusters)))
                (ckmeans simplestats [] (Some 0))
            /\ (forall e,
                   ckmeans simplestats [] (Some 0) = JS.Throw e ->
                   buildBinColors simplestats column style g = JS.Throw e)
            /\ (buildBinColors simplestats column style g = JS.Ok (Some [])
                <-> ckmeans simplestats [] (Some 0) = JS.Ok [])))
  /\ (let column :=
        mkTableColumn "value" (Some [JS.VString "a"; JS.VNull]) None None
          SCALAR [] in
      forall simplestats render this h e,
        ckmeans simplestats [] (Some 0) = JS.Throw e ->
        tableColumn this = Some column ->
        h !! tableStyle this = Some (styleOf 7 "auto") ->
        buildBinColors simplestats column (styleOf 7 "auto")
          (render defaultColorMap) = JS.Throw e
        /\ generateLegend simplestats render this h = JS.Throw e).
Proof.
  split; [|split].
  - intros simplestats column style g H. apply buildBinColors_none.
    destruct H as [-> | [H | [H | H]]];
      [right; by left | right; by left | right; by right | by left].
  - intros simplestats column style g vs b Hvs Hnum Hb Hb1 Hnone.
    rewrite (buildBinColors_some simplestats column style g vs b) by done.
    rewrite Hnum. cbn [length]. replace (Z.min b (Z.of_nat 0)) with 0 by lia.
    split; [by intros ->|]. intros ->. unfold clusterBins.
    destruct (ckmeans simplestats [] (Some 0)) as [clusters | e'];
      cbn [JS.mapResult].
    + split; [done|]. split; [done|]. split.
      * intros [= H]. apply (f_equal (fmap upperBound)) in H.
        rewrite colourBounds_bounds in H. by apply clusterBounds_nil in H as ->.
      * by intros [= ->].
    + split; [done|]. split; [by intros e [= ->]|]. done.
  - intros column simplestats render this h e Hthrow Hcol Hstyle.
    assert (Hbins : buildBinColors simplestats column (styleOf 7 "auto")
                      (render defaultColorMap) = JS.Throw e).
    { rewrite (buildBinColors_some simplestats column (styleOf 7 "auto") _
                 [JS.VString "a"; JS.VNull] 7) by (done || lia).
      change (usesQuantile _ _) with false. cbv iota.
      unfold clusterBins.
      change (numericalValuesOf _) with (@nil Q).
      change (Z.min 7 _) with 0. by rewrite Hthrow. }
    split; [done|].
    unfold generateLegend. rewrite Hcol, Hstyle.
    change (defaultValue (colorMap (styleOf 7 "auto")) defaultColorMap)
      with defaultColorMap.
    cbv zeta. by rewrite Hbins.
Qed.

Lemma buildBinColors_no_bins_witness :
  let column :=
    mkTableColumn "value" (Some [JS.VString "a"; JS.VNull]) None None
      SCALAR [] in
  buildBinColors specStatistics (columnOf []) (styleOf 0 "auto")
    exampleGradient = JS.Ok None
  /\ buildBinColors specStatistics column (styleOf 7 "quantile")
       exampleGradient = JS.Ok (Some [])
  /\ buildBinColors specStatistics column (styleOf 7 "auto")
       exampleGradient = JS.Throw "Error"
  /\ generateLegend specStatistics (fun _ => exampleGradient)
       (mkLegendHelper (Some column) 1%positive LegendUndefined None None)
       {[ 1%positive := styleOf 7 "auto" ]}
     = JS.Throw "Error".
Proof.
  intros column.
  destruct buildBinColors_no_bins as (Hnone & Hempty & Hthrow).
  split; [|split].
  - apply Hnone. right. right. left. exists 0. split; [reflexivity | lia].
  - destruct (Hempty specStatistics column (styleOf 7 "quantile")
                exampleGradient [JS.VString "a"; JS.VNull] 7
                eq_refl eq_refl eq_refl ltac:(lia) eq_refl) as [H _].
    exact (H eq_refl).
  - exact (Hthrow specStatistics (fun _ => exampleGradient)
             (mkLegendHelper (Some column) 1%positive LegendUndefined None None)
             {[ 1%positive := styleOf 7 "auto" ]} "Error"
             eq_refl eq_refl eq_refl).
Defined.

(** ** The theorems at work *)

Lemma getColorFromValue_first_bin_witness :
  getColorFromValue exampleHelper (Some 4%Q)
  = JS.Ok ([], colorArrayToColor [Some 0; Some 200; Some 0; Some 255])
  /\ getColorFromValue exampleHelper (Some 10%Q)
     = JS.Ok ([], colorArrayToColor [Some 200; Some 0; Some 0; Some 255]).
Proof.
  destruct getColorFromValue_first_bin as [_ H].
  assert (Hdef : Forall (fun b => is_Some (upperBound b)) exampleBins).
  { repeat constructor; eexists; reflexivity. }
  split.
  - destruct (H exampleHelper exampleBins 4%Q eq_refl ltac:(discriminate) Hdef)
      as [Hfirst _].
    apply (Hfirst 1%nat (mkBin (Some 5%Q) [Some 0; Some 200; Some 0; Some 255]));
      [|reflexivity].
    split.
    + eexists. split; [reflexivity|]. exists 5%Q. split; [reflexivity|].
      unfold Qle. simpl. lia.
    + intros j b Hj Hb. destruct j as [|j]; [|lia].
      injection Hb as <-. intros (u & [= <-] & Hle).
      unfold Qle in Hle. simpl in Hle. lia.
  - destruct (H exampleHelper exampleBins 10%Q eq_refl ltac:(discriminate) Hdef)
      as [_ Hlast].
    apply (Hlast (mkBin (Some 9%Q) [Some 200; Some 0; Some 0; Some 255]));
      [|reflexivity].
    intros b Hb. exists 10%Q.
    repeat (apply elem_of_cons in Hb as [-> | Hb]);
      [| | | by apply elem_of_nil in Hb];
      eexists; (split; [reflexivity|]); (split; [reflexivity|]);
      unfold Qlt; simpl; lia.
Defined.

Lemma getColorFromValue_never_misses_witness :
  exists b,
    exampleBins !! scanBins 3 exampleBins 7%Q 0 = Some b
    /\ getColorFromValue exampleHelper (Some 7%Q)
       = JS.Ok ([], colorArrayToColor (color b)).
Proof.
  destruct (getColorFromValue_never_misses exampleHelper exampleBins 7%Q
              eq_refl ltac:(discriminate)) as (_ & _ & _ & H).
  exact H.
Defined.

Lemma getColorFromColorGradient_sample_witness :
  getColorFromColorGradient exampleGradient (Some (1 # 2)%Q)
  = pixel exampleGradient 1
  /\ getColorFromColorGradient exampleGradient (Some 2%Q)
     = [None; None; None; None].
Proof.
  assert (Hres : 1 <= 3 < 2 ^ 53) by (split; [lia | reflexivity]).
  assert (Hf : (0 <= 1 # 2 <= 1)%Q) by (split; unfold Qle; simpl; lia).
  split.
  - destruct (getColorFromColorGradient_sample exampleGradient 3 (1 # 2)%Q
                eq_refl Hres) as [H _].
    destruct (H Hf) as [Hpixel _]. exact Hpixel.
  - destruct (getColorFromColorGradient_sample exampleGradient 3 2%Q
                eq_refl Hres) as [_ H].
    apply H. right. vm_compute. discriminate.
Defined.

Lemma buildLegendProps_single_stop_witness :
  buildLegendProps (columnOf [1; 5; 9]%Q) newTableStyle
    [mkColorStop 0%Q "red"] (Some exampleBins) = None
  /\ exists this',
       generateLegend specStatistics (fun _ => exampleGradient) exampleHelper
         {[ 1%positive := mkTableStyle (Some [mkColorStop 0%Q "red"]) (Some 7)
                            "auto" (Some 0) None None ]}
       = JS.Ok this'
       /\ _legend this' = LegendNull.
Proof.
  destruct buildLegendProps_single_stop as [Hprops Hlegend]. split.
  - apply Hprops. reflexivity.
  - exact (Hlegend specStatistics (fun _ => exampleGradient) exampleHelper
             {[ 1%positive := mkTableStyle (Some [mkColorStop 0%Q "red"])
                                (Some 7) "auto" (Some 0) None None ]}
             (columnOf [1; 5; 9]%Q)
             (mkTableStyle (Some [mkColorStop 0%Q "red"]) (Some 7) "auto"
                (Some 0) None None)
             (mkColorStop 0%Q "red") eq_refl eq_refl eq_refl).
Defined.

Lemma numeric_legend_titles_witness :
  exists props,
    buildLegendProps (columnOf [1; 5; 9]%Q) newTableStyle defaultColorMap
      (Some exampleBins) = Some props
    /\ length (items props) = 3%nat.
Proof.
  destruct (numeric_legend_titles (columnOf [1; 5; 9]%Q) newTableStyle
              defaultColorMap exampleBins ltac:(discriminate)
              ltac:(discriminate)) as (props & Hprops & Hlen & _).
  exists props. split; [exact Hprops | exact Hlen].
Defined.

Lemma newLegendHelper_fills_defaults_witness :
  let h : store := {[ 1%positive := newTableStyle ]} in
  exists s',
    (newLegendHelper None (Some 1%positive) h).2 !! 1%positive = Some s'
    /\ colorBins s' = Some 7
    /\ legendTicks s' = Some 0
    /\ colorBinMethod s' = "auto".
Proof.
  intros h.
  destruct (newLegendHelper_fills_defaults None 1%positive h newTableStyle
              eq_refl) as (_ & (s' & Hs' & Hbins & Hticks & _ & Hmethod & _) & _).
  exists s'. split; [exact Hs'|]. split; [exact Hbins|].
  split; [exact Hticks | exact Hmethod].
Defined.

(** * Further properties of the code *)

(** ** The colours of the bins *)

Lemma buildBinColors_cases simplestats column style g bins :
  buildBinColors simplestats column style g = JS.Ok (Some bins) ->
  exists vs,
    values column = Some vs
    /\ (bins = quantileBins simplestats (numericalValuesOf vs)
                 (binCountOf style (numericalValuesOf vs)) g
        \/ clusterBins simplestats (numericalValuesOf vs)
             (binCountOf style (numericalValuesOf vs)) g = JS.Ok bins).
Proof.
  unfold buildBinColors. destruct (values column) as [vs|]; [|done].
  destruct (_ || _); [done|]. intros H. exists vs. split; [done|].
  destruct (usesQuantile _ _); [injection H as <-; by left|].
  right. destruct (clusterBins _ _ _ _); [|done].
  cbn [JS.mapResult] in H. by injection H as <-.
Qed.

(** The colour of bin [i] is sampled at [i / (n - 1)], [n] the number of
    bins built. *)
Lemma buildBinColors_color simplestats column style g bins i b :
  buildBinColors simplestats column style g = JS.Ok (Some bins) ->
  bins !! i = Some b ->
  color b = getColorFromColorGradient g
              (JS.divInt (Z.of_nat i) (Z.of_nat (length bins) - 1)).
Proof.
  intros Hbins Hb.
  destruct (buildBinColors_cases _ _ _ _ _ Hbins) as (vs & _ & [-> | Hcl]).
  - unfold quantileBins in *.
    destruct (binCountOf style (numericalValuesOf vs)) as [k|]; [|done].
    rewrite length_fmap, length_seq.
    rewrite list_lookup_fmap in Hb.
    destruct (seq 0 (Z.to_nat k) !! i) as [j|] eqn:Hj; [|done].
    apply lookup_seq in Hj as [-> Hi]. injection Hb as <-. cbn [color].
    do 2 f_equal. lia.
  - unfold clusterBins in Hcl.
    destruct (ckmeans _ _ _) as [clusters|]; [|done].
    cbn [JS.mapResult] in Hcl. injection Hcl as <-.
    unfold colourBounds in *. rewrite length_imap.
    rewrite list_lookup_imap in Hb.
    destruct (clusterBounds _ !! i); [|done]. by injection Hb as <-.
Qed.

(** X1: when exactly one bin is built, its colour is read at position
    [0 / 0]: the four bytes are [undefined] and the colour handed out for
    it has no channel that is a number, whatever the gradient is. *)
Theorem buildBinColors_single_bin_colour
    (simplestats : SimpleStatistics) (column : TableColumn)
    (style : TableStyle) (g : ImageData) (b : Bin) :
  buildBinColors simplestats column style g = JS.Ok (Some [b]) ->
  color b = [None; None; None; None]
  /\ colorArrayToColor (color b) = mkColor None None None None.
Proof.
  intros Hbins.
  pose proof (buildBinColors_color _ _ _ _ _ 0%nat b Hbins eq_refl) as Hc.
  cbn in Hc. rewrite Hc. done.
Qed.

Lemma buildBinColors_single_bin_colour_witness :
  exists b,
    buildBinColors specStatistics (columnOf [5%Q]) (styleOf 7 "auto")
      exampleGradient = JS.Ok (Some [b])
    /\ color b = [None; None; None; None].
Proof.
  eexists. split; [reflexivity|].
  apply (buildBinColors_single_bin_colour specStatistics (columnOf [5%Q])
           (styleOf 7 "auto") exampleGradient).
  reflexivity.
Defined.

Lemma sample_in_range (g : ImageData) (resolution : Z) (fraction : Q) :
  validGradient g resolution ->
  (0 <= fraction <= 1)%Q ->
  let index := Qfloor (JS.mul fraction (inject_Z (resolution - 1))) in
  getColorFromColorGradient g (Some fraction) = pixel g index
  /\ 0 <= index <= resolution - 1.
Proof.
  intros [Hlen Hres] Hf index.
  pose proof (Qfloor_fraction resolution fraction Hres Hf) as Hidx.
  fold index in Hidx. split; [|done].
  unfold getColorFromColorGradient.
  rewrite (colorIndex_valid g resolution fraction Hlen Hres). fold index.
  unfold pixel, JS.index. cbn [fmap option_fmap option_map].
  repeat match goal with
         | |- context [?z <? 0] =>
             replace (z <? 0) with false by (symmetry; apply Z.ltb_ge; lia)
         end.
  done.
Qed.

Lemma pixel_defined (g : ImageData) (resolution k : Z) :
  validGradient g resolution -> 0 <= k <= resolution - 1 ->
  Forall is_Some (pixel g k).
Proof.
  intros [Hlen Hres] Hk. unfold pixel.
  repeat constructor; apply lookup_lt_is_Some; lia.
Qed.

Lemma div_unit_interval (a k : Z) :
  0 <= a <= k -> 0 < k ->
  (0 <= JS.div (inject_Z a) (inject_Z k) <= 1)%Q.
Proof.
  intros Ha Hk. unfold JS.div. split.
  - apply fl_nonneg. apply Qle_shift_div_l.
    + change 0%Q with (inject_Z 0). rewrite <- Zlt_Qlt. lia.
    + rewrite Qmult_0_l. change 0%Q with (inject_Z 0). rewrite <- Zle_Qle. lia.
  - apply (fl_le_Z _ 1); [done|].
    rewrite <- (position_one k) by lia. apply position_le; lia.
Qed.

(** X2: when two bins or more are built over a table of [resolution]
    pixels, bin [i] of [n] gets the pixel at the index the code computes,
    the floor of the rounded product of the rounded quotient [i / (n - 1)]
    and [resolution - 1]; all four bytes are there, the first bin gets the
    first pixel and the last bin the last pixel. *)
Theorem buildBinColors_colours_from_gradient
    (simplestats : SimpleStatistics) (column : TableColumn)
    (style : TableStyle) (g : ImageData) (resolution : Z)
    (bins : list Bin) (i : nat) (b : Bin) :
  buildBinColors simplestats column style g = JS.Ok (Some bins) ->
  validGradient g resolution ->
  (2 <= length bins)%nat ->
  bins !! i = Some b ->
  let n := Z.of_nat (length bins) in
  let index := Qfloor (JS.mul (JS.div (inject_Z (Z.of_nat i)) (inject_Z (n - 1)))
                              (inject_Z (resolution - 1))) in
  color b = pixel g index
  /\ Forall is_Some (color b)
  /\ 0 <= index <= resolution - 1
  /\ (i = 0%nat -> index = 0)
  /\ (Z.of_nat i = n - 1 -> index = resolution - 1).
Proof.
  intros Hbins Hg Hn Hb n index.
  pose proof (lookup_lt_Some _ _ _ Hb) as Hi.
  pose proof (div_unit_interval (Z.of_nat i) (n - 1) ltac:(lia) ltac:(lia))
    as Hf.
  destruct (sample_in_range g resolution _ Hg Hf) as [Hpix Hidx].
  fold index in Hpix, Hidx.
  assert (Hc : color b = pixel g index).
  { rewrite (buildBinColors_color _ _ _ _ _ _ _ Hbins Hb). fold n.
    unfold JS.divInt.
    replace (n - 1 =? 0) with false by (symmetry; apply Z.eqb_neq; lia).
    done. }
  pose proof Hg as [_ Hres].
  split; [done|]. split; [rewrite Hc; by eapply pixel_defined|].
  split; [done|]. split.
  - intros ->. subst index. rewrite (Qfloor_comp _ (inject_Z 0)).
    + apply Qfloor_Z.
    + change (inject_Z (Z.of_nat 0)) with 0%Q. unfold JS.div, JS.mul.
      rewrite (fl_zero (0 / inject_Z (n - 1))) by (unfold Qdiv; ring).
      rewrite (fl_zero (0 * inject_Z (resolution - 1))) by ring.
      reflexivity.
  - intros Hlast. subst index. rewrite Hlast.
    rewrite (Qfloor_comp _ (inject_Z (resolution - 1))).
    + apply Qfloor_Z.
    + rewrite div_position_one by lia. unfold JS.mul.
      rewrite Qmult_1_l. apply fl_Z. lia.
Qed.

Lemma buildBinColors_colours_from_gradient_witness :
  exists bins b,
    buildBinColors specStatistics (columnOf [1; 5; 9]%Q) (styleOf 3 "auto")
      exampleGradient = JS.Ok (Some bins)
    /\ bins !! 2%nat = Some b
    /\ color b = pixel exampleGradient 2.
Proof.
  eexists. eexists. split; [reflexivity|]. split; [reflexivity|].
  assert (Hg : validGradient exampleGradient 3)
    by (split; [reflexivity | split; [lia | reflexivity]]).
  destruct (buildBinColors_colours_from_gradient specStatistics
              (columnOf [1; 5; 9]%Q) (styleOf 3 "auto") exampleGradient 3
              _ 2%nat _ eq_refl Hg ltac:(vm_compute; lia) eq_refl)
    as (Hc & _).
  exact Hc.
Defined.

(** ** The scan is monotone *)

Lemma gt_mono (v v' : Q) (ub : option Q) :
  (v <= v')%Q -> JS.gt (Some v) ub = true -> JS.gt (Some v') ub = true.
Proof.
  intros Hle H. apply gt_true in H as (a & u & [= <-] & -> & Hlt).
  apply gt_true. exists v', u. split; [done|]. split; [done|]. lra.
Qed.

(** X3: the bin found does not move back when the value grows: for
    [v <= v'] the index found for [v] is at most the index found for [v'],
    whatever the bins are (sorted or not). *)
Theorem scanBins_monotone (binColors : list Bin) (v v' : Q) :
  (v <= v')%Q ->
  (scanBins (length binColors) binColors v 0
   <= scanBins (length binColors) binColors v' 0)%nat.
Proof.
  intros Hle.
  destruct (scanBins_exit (length binColors) binColors v 0)
    as (_ & Hbefore & _); [lia|].
  destruct (scanBins_exit (length binColors) binColors v' 0)
    as (_ & _ & Hstop'); [lia|].
  set (r := scanBins (length binColors) binColors v 0) in *.
  set (r' := scanBins (length binColors) binColors v' 0) in *.
  destruct (le_lt_dec r r') as [|Hlt]; [done|]. exfalso.
  specialize (Hbefore r' ltac:(lia)). unfold scanContinues in *.
  apply andb_true_iff in Hbefore as [Hin Hgt].
  rewrite Hin, (gt_mono v v' _ Hle Hgt) in Hstop'. done.
Qed.

Lemma scanBins_monotone_witness :
  (scanBins 3 exampleBins 4%Q 0 <= scanBins 3 exampleBins 7%Q 0)%nat.
Proof.
  apply (scanBins_monotone exampleBins 4%Q 7%Q).
  unfold Qle. simpl. lia.
Defined.

(** ** Clusters of one value each *)

Lemma singletons_concat (clusters : list (list Q)) :
  Forall (fun c => length c = 1%nat) clusters ->
  clusters = (fun x => [x]) <$> concat clusters.
Proof.
  induction 1 as [|c rest Hc _ IH]; [done|].
  destruct c as [|x [|? ?]]; try done. simpl. f_equal. exact IH.
Qed.

Lemma skipAfter_singleton (p x : Q) :
  skipAfter (Some [p]) [x] = Qeq_bool x p.
Proof. unfold skipAfter. by rewrite lastOf_last. Qed.

Lemma boundsAfter_singletons (pq : option Q) (xs : list Q) :
  (forall p x, pq = Some p -> x ∈ xs -> (p <= x)%Q) ->
  StronglySorted Qle xs ->
  exists bs,
    boundsAfter ((fun p => [p]) <$> pq) ((fun x => [x]) <$> xs) = Some <$> bs
    /\ StronglySorted Qlt bs
    /\ (forall b, b ∈ bs -> b ∈ xs)
    /\ (forall p b, pq = Some p -> b ∈ bs -> (p < b)%Q)
    /\ (forall x, x ∈ xs ->
                  (exists p, pq = Some p /\ (x == p)%Q)
                  \/ exists b, b ∈ bs /\ (x == b)%Q).
Proof.
  intros Hpq Hs. revert pq Hpq.
  induction Hs as [|x rest Hs IH Hx]; intros pq Hpq.
  - exists []. split; [done|]. split; [constructor|].
    split; [intros b Hb; by apply elem_of_nil in Hb|].
    split; [intros p b _ Hb; by apply elem_of_nil in Hb|].
    intros x Hx. by apply elem_of_nil in Hx.
  - rewrite Forall_forall in Hx.
    destruct (IH (Some x)) as (bs & Hbs & Hsorted & Hin & Hlt & Hcover).
    { intros p y [= <-] Hy. by apply Hx. }
    cbn [fmap list_fmap boundsAfter]. change (list_fmap _ _ ?f rest) with (f <$> rest).
    change (Some [x]) with ((fun p => [p]) <$> Some x). rewrite Hbs.
    assert (Hkeep : exists bs',
               bs' = x :: bs /\ StronglySorted Qlt bs').
    { exists (x :: bs). split; [done|]. constructor; [done|].
      apply Forall_forall. intros b Hb. by apply (Hlt x). }
    destruct Hkeep as (bs' & -> & Hsorted').
    assert (Hcover' : forall y, y ∈ x :: rest ->
               exists b, b ∈ x :: bs /\ (y == b)%Q).
    { intros y Hy. apply elem_of_cons in Hy as [-> | Hy].
      - exists x. split; [by apply elem_of_cons; left | reflexivity].
      - destruct (Hcover y Hy) as [(p & [= <-] & Hyp) | (b & Hb & Hyb)].
        + exists x. split; [by apply elem_of_cons; left | done].
        + exists b. split; [by apply elem_of_cons; right | done]. }
    rewrite lastOf_last. cbn [last].
    destruct pq as [p|]; cbn [fmap option_fmap option_map].
    + rewrite skipAfter_singleton.
      destruct (Qeq_bool x p) eqn:E.
      * apply Qeq_bool_iff in E. exists bs. split; [done|]. split; [done|].
        split; [intros b Hb; apply elem_of_cons; right; by apply Hin|].
        split.
        -- intros p' b [= <-] Hb. specialize (Hlt x b eq_refl Hb). lra.
        -- intros y Hy. apply elem_of_cons in Hy as [-> | Hy].
           ++ left. by exists p.
           ++ destruct (Hcover y Hy) as [(p' & [= <-] & Hyp) | Hb].
              ** left. exists p. split; [done|]. lra.
              ** by right.
      * assert (p < x)%Q.
        { assert (p <= x)%Q by (apply (Hpq p x eq_refl), elem_of_cons; by left).
          assert (~ x == p)%Q by (intros H'; apply Qeq_bool_iff in H'; congruence).
          lra. }
        exists (x :: bs). split; [done|]. split; [done|].
        split.
        { intros b Hb. apply elem_of_cons in Hb as [-> | Hb];
            apply elem_of_cons; [by left | right; by apply Hin]. }
        split.
        -- intros p' b [= <-] Hb. apply elem_of_cons in Hb as [-> | Hb]; [done|].
           specialize (Hlt x b eq_refl Hb). lra.
        -- intros y Hy. right. by apply Hcover'.
    + cbn [skipAfter].
      exists (x :: bs). split; [done|]. split; [done|].
      split.
      { intros b Hb. apply elem_of_cons in Hb as [-> | Hb];
          apply elem_of_cons; [by left | right; by apply Hin]. }
      split; [done|].
      intros y Hy. right. by apply Hcover'.
Qed.

(** X4: when every cluster holds one value (as many clusters as values),
    the bounds kept are strictly increasing, each is one of the values,
    and every value equals one of them: the bounds are the distinct
    values, without the repeats the loop is there to avoid. *)
Theorem clusterBounds_of_singletons (clusters : list (list Q)) :
  Forall (fun c => length c = 1%nat) clusters ->
  StronglySorted Qle (concat clusters) ->
  exists bounds,
    clusterBounds clusters = Some <$> bounds
    /\ StronglySorted Qlt bounds
    /\ (forall b, b ∈ bounds -> b ∈ concat clusters)
    /\ (forall x, x ∈ concat clusters ->
                  exists b, b ∈ bounds /\ (x == b)%Q).
Proof.
  intros Hone Hsorted.
  destruct (boundsAfter_singletons None (concat clusters))
    as (bs & Hbs & Hlt & Hin & _ & Hcover); [done | done |].
  exists bs. rewrite clusterBounds_structural.
  rewrite (singletons_concat clusters Hone) at 1.
  split; [done|]. split; [done|]. split; [done|].
  intros x Hx. destruct (Hcover x Hx) as [(p & [=] & _) | H]; done.
Qed.

Lemma clusterBounds_of_singletons_witness :
  exists bounds,
    clusterBounds [[1%Q]; [2%Q]; [2%Q]; [2%Q]; [3%Q]] = Some <$> bounds
    /\ StronglySorted Qlt bounds.
Proof.
  destruct (clusterBounds_of_singletons [[1%Q]; [2%Q]; [2%Q]; [2%Q]; [3%Q]])
    as (bounds & Hb & Hs & _).
  - repeat constructor.
  - repeat constructor; unfold Qle; simpl; lia.
  - exists bounds. split; [exact Hb | exact Hs].
Defined.

(** ** Numbers as text *)

Lemma round_unique (x : Q) (n : Z) :
  (inject_Z n <= x + (1 # 2))%Q -> (x + (1 # 2) < inject_Z n + 1)%Q ->
  JS.round x = n.
Proof.
  intros Hlo Hhi. unfold JS.round.
  set (y := (x + (1 # 2))%Q) in *.
  pose proof (Qfloor_le y) as Hfl. pose proof (Qlt_floor y) as Hfu.
  rewrite inject_Z_plus in Hfu. change (inject_Z 1) with 1%Q in Hfu.
  assert (H1 : (inject_Z (Qfloor y) < inject_Z (n + 1))%Q).
  { rewrite inject_Z_plus. change (inject_Z 1) with 1%Q. lra. }
  assert (H2 : (inject_Z n < inject_Z (Qfloor y + 1))%Q).
  { rewrite inject_Z_plus. change (inject_Z 1) with 1%Q. lra. }
  rewrite <- Zlt_Qlt in H1, H2. lia.
Qed.

Lemma append_empty_r (s : string) : s +:+ "" = s.
Proof.
  induction s as [|a s IH]; [done|].
  change (String a (s +:+ "") = String a s). by rewrite IH.
Qed.

Lemma stringOfHundredths_whole (z : Z) :
  stringOfHundredths (z * 100) = JS.stringOfZ z.
Proof.
  unfold stringOfHundredths.
  replace (Z.abs (z * 100)) with (Z.abs z * 100) by lia.
  rewrite Z.div_mul, Z.mod_mul by lia. cbn [Z.eqb].
  replace (z * 100 <? 0) with (z <? 0)
    by (destruct (Z.ltb_spec z 0), (Z.ltb_spec (z * 100) 0); lia || done).
  rewrite append_empty_r. by destruct z.
Qed.

(** X5: a whole number (small enough for its hundredfold to be exact) is
    printed as that integer, without a decimal point and with its sign;
    and every number from -0.004 to 0.004 is printed "0", never "-0". *)
Theorem convertToString_values :
  (forall z : Z,
      Z.abs z <= 10 ^ 13 ->
      convertToStringWithAtMostTwoDecimalPlaces (Some (inject_Z z))
      = JS.stringOfZ z)
  /\ (forall q : Q,
        (- (1 # 250) <= q)%Q -> (q <= 1 # 250)%Q ->
        convertToStringWithAtMostTwoDecimalPlaces (Some q) = "0").
Proof.
  split.
  - intros z Hz. unfold convertToStringWithAtMostTwoDecimalPlaces.
    assert (Hexact : (JS.mul (inject_Z z) 100 == inject_Z (z * 100))%Q).
    { unfold JS.mul. change 100%Q with (inject_Z 100).
      rewrite <- inject_Z_mult. apply fl_Z.
      change (10 ^ 13) with 10000000000000 in Hz.
      change (2 ^ 53) with 9007199254740992. lia. }
    rewrite (round_unique _ (z * 100)); [apply stringOfHundredths_whole | |];
      rewrite Hexact; lra.
  - intros q Hlo Hhi. unfold convertToStringWithAtMostTwoDecimalPlaces.
    assert (Hup : (JS.fl (7 # 16) == 7 # 16)%Q) by (vm_compute; reflexivity).
    assert (Hdown : (JS.fl (- (7 # 16)) == - (7 # 16))%Q)
      by (vm_compute; reflexivity).
    assert (Hprod : (- (7 # 16) <= JS.mul q 100 <= 7 # 16)%Q).
    { unfold JS.mul. split.
      - rewrite <- Hdown. apply fl_mono. lra.
      - rewrite <- Hup. apply fl_mono. lra. }
    rewrite (round_unique _ 0); [done | |]; change (inject_Z 0) with 0%Q; lra.
Qed.

Lemma convertToString_values_witness :
  convertToStringWithAtMostTwoDecimalPlaces (Some (inject_Z (-12))) = "-12"
  /\ convertToStringWithAtMostTwoDecimalPlaces (Some (-3 # 1000)%Q) = "0".
Proof.
  destruct convertToString_values as (Hwhole & Hzero). split.
  - apply (Hwhole (-12)). vm_compute. discriminate.
  - apply Hzero; unfold Qle; simpl; lia.
Defined.

(** ** The paths of the legend *)

Lemma format_Qeq (q q' : Q) :
  (q == q')%Q ->
  convertToStringWithAtMostTwoDecimalPlaces (Some q)
  = convertToStringWithAtMostTwoDecimalPlaces (Some q').
Proof.
  intros Heq. unfold convertToStringWithAtMostTwoDecimalPlaces, JS.round.
  f_equal. apply Qfloor_comp. by rewrite Heq.
Qed.

(** The product with 100 is the rounded one: 2.675 is printed "2.68" and
    1.005 is printed "1", where the exact products 267.5 and 100.5 would
    give "2.68" and "1.01". *)
Example convertToString_rounds_the_product :
  convertToStringWithAtMostTwoDecimalPlaces (Some (JS.fl (2675 # 1000))) = "2.68"
  /\ convertToStringWithAtMostTwoDecimalPlaces (Some (JS.fl (1005 # 1000))) = "1"
  /\ stringOfHundredths (JS.round ((1005 # 1000) * 100)) = "1.01".
Proof. repeat split; vm_compute; reflexivity. Qed.

(** X6: there is a legend exactly when the colour map does not have one
    single stop; in particular an empty colour map gives a legend. *)
Theorem buildLegendProps_defined_iff
    (column : TableColumn) (style : TableStyle) (colorMap : list ColorStop)
    (bins : option (list Bin)) :
  is_Some (buildLegendProps column style colorMap bins)
  <-> length colorMap <> 1%nat.
Proof.
  split.
  - intros [props H] Hlen. unfold buildLegendProps in H.
    rewrite Hlen in H. done.
  - apply buildLegendProps_some.
Qed.

(** X7: without bins the legend is the gradient: it carries the colour
    map, it has [2 + legendTicks] label points (none when that is not
    positive), none of them has a colour, only the first one has a
    [titleBelow], the formatted minimum, and when the bounds displayed are
    numbers the last [titleAbove] is the format of
    [min + (max - min) * 1] as the code computes it, each operation
    rounded. *)
Theorem gradient_legend_labels
    (column : TableColumn) (style : TableStyle) (colorMap : list ColorStop)
    (ticks : Z) :
  length colorMap <> 1%nat ->
  legendTicks style = Some ticks ->
  let minimumValue := (displayBounds column style).1 in
  let maximumValue := (displayBounds column style).2 in
  exists props,
    buildLegendProps column style colorMap None = Some props
    /\ gradientColorMap props = Some colorMap
    /\ length (items props) = Z.to_nat (2 + ticks)
    /\ (forall i item,
          items props !! i = Some item ->
          itemColor item = None
          /\ is_Some (titleAbove item)
          /\ titleBelow item
             = if decide (i = 0%nat)
               then Some (convertToStringWithAtMostTwoDecimalPlaces minimumValue)
               else None)
    /\ (forall lo hi item,
          minimumValue = Some lo -> maximumValue = Some hi ->
          last (items props) = Some item ->
          titleAbove item
          = Some (convertToStringWithAtMostTwoDecimalPlaces
                    (Some (JS.add lo (JS.mul (JS.sub hi lo) 1))))).
Proof.
  intros Hlen Hticks minimumValue maximumValue. unfold buildLegendProps.
  destruct (Nat.eqb_spec (length colorMap) 1) as [|_]; [done|].
  subst minimumValue maximumValue.
  destruct (displayBounds column style) as [minimumValue maximumValue].
  cbn [fst snd]. rewrite Hticks. unfold gradientLabelPoints.
  eexists. split; [done|]. cbn [gradientColorMap items].
  split; [done|]. split; [by rewrite length_fmap, length_seq|]. split.
  - intros i item Hitem. rewrite list_lookup_fmap in Hitem.
    destruct (seq 1 (Z.to_nat (2 + ticks)) !! i) as [k|] eqn:Hk; [|done].
    apply lookup_seq in Hk as [-> Hi]. injection Hitem as <-.
    cbn [itemColor titleAbove titleBelow]. split; [done|]. split; [done|].
    destruct (decide (i = 0%nat)) as [->|Hne]; [done|].
    destruct i as [|i]; [done|]. simpl. by destruct (Pos.of_succ_nat i).
  - intros lo hi item -> -> Hlast. rewrite fmap_last in Hlast.
    destruct (Z.to_nat (2 + ticks)) as [|m] eqn:Hm; [done|].
    rewrite seq_S, last_snoc in Hlast. injection Hlast as <-.
    cbn [titleAbove]. f_equal.
    replace (Z.of_nat (1 + m)) with (2 + ticks) by lia.
    replace (Z.of_nat (S m)) with (2 + ticks) by lia.
    unfold JS.divInt.
    replace (2 + ticks =? 0) with false by (symmetry; apply Z.eqb_neq; lia).
    cbn [JS.lift2]. apply format_Qeq.
    apply add_proper; [reflexivity|]. apply mul_proper; [reflexivity|].
    apply div_position_one. lia.
Qed.

(** The last label need not be the formatted maximum: from -0.2 to 0.375
    the sum [min + (max - min)] is rounded below 0.375, and the label is
    "0.37" where the maximum itself is printed "0.38". *)
Example gradient_last_label_is_not_the_maximum :
  let column :=
    mkTableColumn "value" None (Some (JS.fl (-2 # 10))) (Some (375 # 1000)%Q)
      SCALAR [] in
  (fun props => titleAbove <$> items props)
    <$> buildLegendProps column (styleOf 7 "none") defaultColorMap None
  = Some [Some "0.09"; Some "0.37"]
  /\ convertToStringWithAtMostTwoDecimalPlaces (maximumValue column) = "0.38".
Proof. split; vm_compute; reflexivity. Qed.

Lemma gradient_legend_labels_witness :
  exists props,
    buildLegendProps (mkTableColumn "value" None (Some 1%Q) (Some 9%Q) SCALAR [])
      (styleOf 7 "none") defaultColorMap None = Some props
    /\ length (items props) = 2%nat.
Proof.
  destruct (gradient_legend_labels
              (mkTableColumn "value" None (Some 1%Q) (Some 9%Q) SCALAR [])
              (styleOf 7 "none") defaultColorMap 0
              ltac:(discriminate) eq_refl) as (props & Hp & _ & Hl & _).
  exists props. split; [exact Hp | exact Hl].
Defined.

(** X8: for a column whose minimum and maximum are the same value, the
    display bounds of the style are not looked at: the legend is the same
    whatever [minDisplayValue] and [maxDisplayValue] are. *)
Theorem constant_column_ignores_display_bounds
    (column : TableColumn) (style : TableStyle) (colorMap : list ColorStop)
    (bins : option (list Bin)) (lo hi : option Q) :
  sameValue (minimumValue column) (maximumValue column) ->
  buildLegendProps column (withDisplayBounds lo hi style) colorMap bins
  = buildLegendProps column style colorMap bins.
Proof.
  intros Hsame. apply strictEq_sameValue in Hsame.
  unfold buildLegendProps, displayBounds. rewrite Hsame. done.
Qed.

Lemma constant_column_ignores_display_bounds_witness :
  buildLegendProps (mkTableColumn "value" None (Some 4%Q) (Some 4%Q) SCALAR [])
    (withDisplayBounds (Some 0%Q) (Some 10%Q) newTableStyle) defaultColorMap
    (Some exampleBins)
  = buildLegendProps (mkTableColumn "value" None (Some 4%Q) (Some 4%Q) SCALAR [])
      newTableStyle defaultColorMap (Some exampleBins).
Proof.
  apply (constant_column_ignores_display_bounds
           (mkTableColumn "value" None (Some 4%Q) (Some 4%Q) SCALAR [])).
  reflexivity.
Defined.

(** X9: for a column of type ENUM with bins there is one item for each
    bin, spaced by 2; its title is the entry of [enumList] at the index of
    the bin ([undefined] past the end of the list), and it has neither
    [titleAbove] nor [titleBelow], whatever the upper bounds are. *)
Theorem enum_legend_items
    (column : TableColumn) (style : TableStyle) (colorMap : list ColorStop)
    (binColors : list Bin) :
  length colorMap <> 1%nat ->
  type column = ENUM ->
  exists props,
    buildLegendProps column style colorMap (Some binColors) = Some props
    /\ itemSpacing props = Some 2
    /\ gradientColorMap props = None
    /\ length (items props) = length binColors
    /\ forall i item,
         items props !! i = Some item ->
         title item = enumList column !! i
         /\ titleAbove item = None
         /\ titleBelow item = None
         /\ exists b, binColors !! i = Some b /\ itemColor item = Some (rgb b).
Proof.
  intros Hlen Htype. unfold buildLegendProps.
  destruct (Nat.eqb_spec (length colorMap) 1) as [|_]; [done|].
  destruct (displayBounds column style) as [minimumValue maximumValue].
  rewrite Htype. eexists. split; [done|]. cbn [itemSpacing gradientColorMap items].
  split; [done|]. split; [done|]. split; [apply length_imap|].
  intros i item Hitem. rewrite list_lookup_imap in Hitem.
  destruct (binColors !! i) as [b|]; [|done]. injection Hitem as <-.
  cbn. repeat split. by exists b.
Qed.

Lemma enum_legend_items_witness :
  exists props,
    buildLegendProps (mkTableColumn "kind" None None None ENUM ["a"; "b"])
      newTableStyle defaultColorMap (Some exampleBins) = Some props
    /\ (title <$> items props) = [Some "a"; Some "b"; None].
Proof.
  destruct (enum_legend_items (mkTableColumn "kind" None None None ENUM ["a"; "b"])
              newTableStyle defaultColorMap exampleBins
              ltac:(discriminate) eq_refl) as (props & Hp & _).
  exists props. split; [exact Hp|].
  vm_compute in Hp. injection Hp as <-. reflexivity.
Defined.

(** ** The constructor and the store *)

(** X10: constructed without a style, the helper gets a style object of its
    own: a reference that was not in the store, holding 7 bins, 0 ticks
    and the default options, and every object the store held is still
    there, unchanged. *)
Theorem newLegendHelper_own_style
    (column : option TableColumn) (h : store) :
  let this := (newLegendHelper column None h).1 in
  let h' := (newLegendHelper column None h).2 in
  h !! tableStyle this = None
  /\ h' !! tableStyle this
     = Some (mkTableStyle None (Some 7) "auto" (Some 0) None None)
  /\ (forall r s, h !! r = Some s -> h' !! r = Some s)
  /\ tableColumn this = column
  /\ _legend this = LegendUndefined
  /\ _binColors this = None.
Proof.
  intros this h'. subst this h'. unfold newLegendHelper. cbn [fst snd tableStyle].
  set (r := fresh (dom h)).
  assert (Hr : h !! r = None).
  { apply not_elem_of_dom. apply is_fresh. }
  split; [done|]. split.
  - rewrite !lookup_alter_eq, lookup_insert_eq. done.
  - split; [|done]. intros r' s Hs.
    assert (r' <> r) by (intros ->; congruence).
    rewrite !lookup_alter_ne, lookup_insert_ne by done. done.
Qed.

(** X11: the constructor fills the defaults once: a second helper built on
    the same style object leaves the store as the first one left it, and
    both helpers refer to the same object. *)
Theorem newLegendHelper_idempotent
    (column column' : option TableColumn) (r : ref) (h : store) :
  let first := newLegendHelper column (Some r) h in
  let second := newLegendHelper column' (Some r) first.2 in
  second.2 = first.2 /\ tableStyle second.1 = tableStyle first.1.
Proof.
  intros first second. subst first second. unfold newLegendHelper.
  cbn [fst snd tableStyle]. split; [|done].
  apply map_eq. intros r'. destruct (decide (r' = r)) as [->|Hne].
  - rewrite !lookup_alter_eq. by destruct (h !! r).
  - rewrite !lookup_alter_ne by done. done.
Qed.

(** ** The legend is built once *)

(** X12: once [legendUrl] has returned on a helper with a column, the
    helper it leaves answers every later call with the same URL without
    building anything again: the answer no longer depends on the store,
    the statistics or the renderer of the gradient, so a later change of
    the style is not seen. Without a column nothing is remembered and the
    URL is [undefined]. *)
Theorem legendUrl_built_once :
  (forall simplestats render asPngUrl this h this' url,
      is_Some (tableColumn this) ->
      legendUrl simplestats render asPngUrl this h = JS.Ok (this', url) ->
      _legend this' <> LegendUndefined
      /\ forall simplestats' render' h',
           legendUrl simplestats' render' asPngUrl this' h'
           = JS.Ok (this', url))
  /\ (forall simplestats render asPngUrl this h,
        tableColumn this = None ->
        _legend this = LegendUndefined ->
        legendUrl simplestats render asPngUrl this h = JS.Ok (this, None)).
Proof.
  split.
  - intros simplestats render asPngUrl this h this' url [column Hcol] Hurl.
    unfold legendUrl in Hurl.
    assert (Hdone : _legend this' <> LegendUndefined
                    /\ url = match _legend this' with
                             | LegendOf props => Some (asPngUrl props)
                             | _ => None
                             end).
    { destruct (_legend this) eqn:Hl.
      - unfold generateLegend in Hurl. rewrite Hcol in Hurl.
        destruct (h !! tableStyle this) as [style|]; [|done].
        destruct (buildBinColors _ _ _ _) as [bins|]; [|done].
        injection Hurl as <- <-. cbn [_legend].
        by destruct (buildLegendProps _ _ _ _).
      - injection Hurl as <- <-. by rewrite Hl.
      - injection Hurl as <- <-. by rewrite Hl. }
    destruct Hdone as [Hdef ->]. split; [done|].
    intros simplestats' render' h'. unfold legendUrl.
    destruct (_legend this') eqn:Hl; [done | |]; cbn; by rewrite Hl.
  - intros simplestats render asPngUrl this h Hcol Hl.
    unfold legendUrl, generateLegend. by rewrite Hl, Hcol, Hl.
Qed.

Lemma legendUrl_built_once_witness :
  let h : store := {[ 1%positive := styleOf 3 "auto" ]} in
  exists this' url,
    legendUrl specStatistics (fun _ => exampleGradient) legendTitle
      exampleHelper h = JS.Ok (this', url)
    /\ legendUrl specStatistics (fun _ => exampleGradient) legendTitle
         this' ∅ = JS.Ok (this', url).
Proof.
  intros h. destruct legendUrl_built_once as [H _].
  eexists. eexists. split; [reflexivity|].
  refine (proj2 (H specStatistics (fun _ => exampleGradient) legendTitle
                   exampleHelper h _ _ _ eq_refl) _ _ _).
  eexists. reflexivity.
Defined.

(** ** From the column to the colour of a value *)

Lemma binsWithin_nonempty limit numericalValues bins :
  binsWithin limit numericalValues bins -> bins <> [].
Proof.
  intros (bounds & Hb & _ & _ & m & Hm & _) ->.
  destruct bounds; [done|]. done.
Qed.

(** X13: after [generateLegend] on a column with at least one number, with
    binning asked for, the colour of any number is the colour of one of
    the bins built: the lookup does not throw and writes nothing to the
    console. (For any statistics package that meets the two contracts.) *)
Theorem generateLegend_then_getColorFromValue
    (simplestats : SimpleStatistics) (render : list ColorStop -> ImageData)
    (this : LegendHelper) (h : store) (column : TableColumn)
    (style : TableStyle) (vs : list JS.value) (b : Z) (v : Q) :
  quantileContract simplestats ->
  ckmeansContract simplestats ->
  tableColumn this = Some column ->
  h !! tableStyle this = Some style ->
  values column = Some vs ->
  numericalValuesOf vs <> [] ->
  colorBins style = Some b ->
  1 <= b ->
  matchNone (colorBinMethod style) = false ->
  exists this' bins bin,
    generateLegend simplestats render this h = JS.Ok this'
    /\ _binColors this' = Some bins
    /\ bin ∈ bins
    /\ getColorFromValue this' (Some v)
       = JS.Ok ([], colorArrayToColor (color bin)).
Proof.
  intros Hq Hck Hcol Hstyle Hvs Hne Hb Hb1 Hnone.
  unfold generateLegend. rewrite Hcol, Hstyle.
  set (g := render (defaultValue (colorMap style) defaultColorMap)).
  destruct (buildBinColors_within simplestats column style g vs b)
    as (bins & -> & Hwithin); [done..|].
  pose proof (binsWithin_nonempty _ _ _ Hwithin) as Hbins.
  eexists. exists bins.
  edestruct (getColorFromValue_scan) as (i & bin & _ & Hbin & Hget);
    [| exact Hbins |].
  2: { exists bin. split; [reflexivity|]. split; [reflexivity|].
       split; [by eapply list_elem_of_lookup_2 | exact Hget]. }
  reflexivity.
Qed.

Lemma generateLegend_then_getColorFromValue_witness :
  let h : store := {[ 1%positive := styleOf 3 "auto" ]} in
  exists this' bins bin,
    generateLegend specStatistics (fun _ => exampleGradient) exampleHelper h
    = JS.Ok this'
    /\ _binColors this' = Some bins
    /\ bin ∈ bins
    /\ getColorFromValue this' (Some 4%Q)
       = JS.Ok ([], colorArrayToColor (color bin)).
Proof.
  intros h.
  apply (generateLegend_then_getColorFromValue specStatistics
           (fun _ => exampleGradient) exampleHelper h (columnOf [1; 5; 9]%Q)
           (styleOf 3 "auto") (JS.VNumber <$> [1; 5; 9]%Q) 3 4%Q).
  - apply specStatistics_quantileContract.
  - apply specStatistics_ckmeansContract.
  - reflexivity.
  - reflexivity.
  - reflexivity.
  - discriminate.
  - reflexivity.
  - lia.
  - reflexivity.
Defined.

(** X14: when binning is switched off (a method containing "none", or a
    bin count of zero or less) [generateLegend] leaves [_binColors]
    [undefined] and builds the gradient legend; asking the helper for the
    colour of a number then throws, while an [undefined] value still gets
    the default colour. *)
Theorem generateLegend_without_bins
    (simplestats : SimpleStatistics) (render : list ColorStop -> ImageData)
    (this : LegendHelper) (h : store) (column : TableColumn)
    (style : TableStyle) (v : Q) :
  tableColumn this = Some column ->
  h !! tableStyle this = Some style ->
  matchNone (colorBinMethod style) = true
  \/ (exists b, colorBins style = Some b /\ b <= 0) ->
  exists this',
    generateLegend simplestats render this h = JS.Ok this'
    /\ _binColors this' = None
    /\ _legend this'
       = match buildLegendProps column style
                 (defaultValue (colorMap style) defaultColorMap) None with
         | Some props => LegendOf props
         | None => LegendNull
         end
    /\ getColorFromValue this' (Some v) = JS.Throw "TypeError"
    /\ getColorFromValue this' None
       = JS.Ok ([], colorArrayToColor defaultColorArray).
Proof.
  intros Hcol Hstyle Hoff. unfold generateLegend. rewrite Hcol, Hstyle.
  rewrite buildBinColors_none by (by right).
  eexists. split; [done|]. done.
Qed.

Lemma generateLegend_without_bins_witness :
  let h : store := {[ 1%positive := styleOf 7 "None" ]} in
  exists this',
    generateLegend specStatistics (fun _ => exampleGradient) exampleHelper h
    = JS.Ok this'
    /\ getColorFromValue this' (Some 4%Q) = JS.Throw "TypeError".
Proof.
  intros h.
  destruct (generateLegend_without_bins specStatistics
              (fun _ => exampleGradient) exampleHelper h (columnOf [1; 5; 9]%Q)
              (styleOf 7 "None") 4%Q eq_refl eq_refl (or_introl eq_refl))
    as (this' & Hgen & _ & _ & Hthrow & _).
  exists this'. split; [exact Hgen | exact Hthrow].
Defined.

(** X15: for a column that holds values but no number, with binning
    asked for: when the method is the quantile one, or when [ckmeans]
    returns no cluster for no data, the bins are the empty array and the
    legend built from them has no item and no gradient: it is not the
    gradient legend of the case without bins. *)
Theorem legend_of_column_without_numbers
    (simplestats : SimpleStatistics) (column : TableColumn)
    (style : TableStyle) (g : ImageData) (colorMap : list ColorStop)
    (vs : list JS.value) (b : Z) :
  values column = Some vs ->
  (forall x, JS.VNumber x ∉ vs) ->
  colorBins style = Some b ->
  1 <= b ->
  matchNone (colorBinMethod style) = false ->
  colorBinMethod style = "quantile"
  \/ ckmeans simplestats [] (Some 0) = JS.Ok [] ->
  length colorMap <> 1%nat ->
  buildBinColors simplestats column style g = JS.Ok (Some [])
  /\ exists props,
       buildLegendProps column style colorMap (Some []) = Some props
       /\ items props = []
       /\ gradientColorMap props = None.
Proof.
  intros Hvs Hnone' Hb Hb1 Hnone Hbranch Hlen.
  assert (Hnum : numericalValuesOf vs = []).
  { unfold numericalValuesOf. clear Hvs.
    induction vs as [|v vs IH]; [done|].
    destruct v as [x| |]; cbn [omap list_omap JS.isNumber]; cbn.
    - exfalso. apply (Hnone' x). by left.
    - apply IH. intros x Hx. apply (Hnone' x). by right.
    - apply IH. intros x Hx. apply (Hnone' x). by right. }
  split.
  - rewrite (buildBinColors_some simplestats column style g vs b) by done.
    rewrite Hnum. cbn [length]. replace (Z.min b (Z.of_nat 0)) with 0 by lia.
    destruct Hbranch as [-> | Hck]; [done|].
    destruct (usesQuantile _ _); [done|].
    unfold clusterBins. rewrite Hck. done.
  - unfold buildLegendProps.
    destruct (Nat.eqb_spec (length colorMap) 1) as [|_]; [done|].
    destruct (displayBounds column style), (type column); eexists; done.
Qed.

Lemma legend_of_column_without_numbers_witness :
  let column :=
    mkTableColumn "value" (Some [JS.VString "a"; JS.VNull]) None None
      SCALAR [] in
  buildBinColors specStatistics column (styleOf 7 "quantile") exampleGradient
  = JS.Ok (Some [])
  /\ exists props,
       buildLegendProps column (styleOf 7 "quantile") defaultColorMap (Some [])
       = Some props
       /\ items props = []
       /\ gradientColorMap props = None.
Proof.
  intros column.
  apply (legend_of_column_without_numbers specStatistics column
           (styleOf 7 "quantile") exampleGradient defaultColorMap
           [JS.VString "a"; JS.VNull] 7).
  - reflexivity.
  - intros x Hx.
    apply elem_of_cons in Hx as [Hx | Hx]; [discriminate|].
    apply elem_of_cons in Hx as [Hx | Hx]; [discriminate|].
    by apply elem_of_nil in Hx.
  - reflexivity.
  - lia.
  - reflexivity.
  - left. reflexivity.
  - discriminate.
Defined.

Lemma numericalValuesOf_app (pre post : list JS.value) :
  numericalValuesOf (pre ++ post)
  = numericalValuesOf pre ++ numericalValuesOf post.
Proof. unfold numericalValuesOf. apply omap_app. Qed.

(** X16: a value that is not a number does not count, wherever it stands
    in the column: the bins built are those of the column without it. *)
Theorem buildBinColors_ignores_other_values
    (simplestats : SimpleStatistics) (column : TableColumn)
    (style : TableStyle) (g : ImageData)
    (pre post : list JS.value) (v : JS.value) :
  values column = Some (pre ++ v :: post) ->
  (forall x, v <> JS.VNumber x) ->
  buildBinColors simplestats column style g
  = buildBinColors simplestats (withValues (Some (pre ++ post)) column) style g.
Proof.
  intros Hvs Hv. unfold buildBinColors, withValues. cbn [values]. rewrite Hvs.
  rewrite !numericalValuesOf_app.
  assert (Hskip : numericalValuesOf (v :: post) = numericalValuesOf post).
  { destruct v as [x| |]; [by destruct (Hv x) | done | done]. }
  by rewrite Hskip.
Qed.

Lemma buildBinColors_ignores_other_values_witness :
  buildBinColors specStatistics
    (mkTableColumn "value"
       (Some [JS.VNumber 1%Q; JS.VString "x"; JS.VNumber 5%Q; JS.VNull])
       None None SCALAR [])
    (styleOf 2 "auto") exampleGradient
  = buildBinColors specStatistics
      (withValues (Some [JS.VNumber 1%Q; JS.VNumber 5%Q; JS.VNull])
         (mkTableColumn "value"
            (Some [JS.VNumber 1%Q; JS.VString "x"; JS.VNumber 5%Q; JS.VNull])
            None None SCALAR []))
      (styleOf 2 "auto") exampleGradient.
Proof.
  apply (buildBinColors_ignores_other_values specStatistics
           (mkTableColumn "value"
              (Some [JS.VNumber 1%Q; JS.VString "x"; JS.VNumber 5%Q; JS.VNull])
              None None SCALAR [])
           (styleOf 2 "auto") exampleGradient
           [JS.VNumber 1%Q] [JS.VNumber 5%Q; JS.VNull] (JS.VString "x")).
  - reflexivity.
  - discriminate.
Defined.

(** ** The method that switches binning off *)

Lemma prefixIgnoringCase_none (s : string) :
  prefixIgnoringCase "none" s = true
  <-> exists a b c d post,
        s = String a (String b (String c (String d post)))
        /\ spellsNone a b c d.
Proof.
  unfold spellsNone. split.
  - destruct s as [|a [|b [|c [|d post]]]]; cbn [prefixIgnoringCase];
      rewrite ?andb_false_r; try done.
    rewrite !andb_true_iff, !Ascii.eqb_eq.
    intros (Ha & Hb & Hc & Hd & _). exists a, b, c, d, post.
    split; [done|]. repeat split; symmetry; assumption.
  - intros (a & b & c & d & post & -> & Ha & Hb & Hc & Hd).
    cbn [prefixIgnoringCase]. rewrite Ha, Hb, Hc, Hd. done.
Qed.

(** X17: a method switches binning off exactly when it contains the four
    letters n, o, n, e in a row, each in either letter case, anywhere in
    it: "None" and "ckmeans-NONE" do, "non" and "n-one" do not. *)
Theorem matchNone_iff (s : string) :
  matchNone s = true
  <-> exists pre a b c d post,
        s = pre +:+ String a (String b (String c (String d post)))
        /\ spellsNone a b c d.
Proof.
  induction s as [|x s IH].
  - split; [done|].
    intros (pre & a & b & c & d & post & H & _). by destruct pre.
  - cbn [matchNone]. rewrite orb_true_iff, prefixIgnoringCase_none, IH.
    split.
    + intros [(a & b & c & d & post & Hs & Hn)
             | (pre & a & b & c & d & post & Hs & Hn)].
      * exists "", a, b, c, d, post. done.
      * exists (String x pre), a, b, c, d, post. split; [|done].
        by rewrite Hs.
    + intros (pre & a & b & c & d & post & Hs & Hn).
      destruct pre as [|y pre].
      * left. exists a, b, c, d, post. done.
      * right. injection Hs as -> ->.
        exists pre, a, b, c, d, post. done.
Qed.

(** ** Every value of the column finds its bin *)

Lemma upperBound_lookup (bins : list Bin) (bounds : list Q) (i : nat) (b : Bin) :
  upperBound <$> bins = Some <$> bounds ->
  bins !! i = Some b ->
  exists u, upperBound b = Some u /\ bounds !! i = Some u.
Proof.
  intros Hb Hi.
  assert (H : (upperBound <$> bins) !! i = Some (upperBound b))
    by (by rewrite list_lookup_fmap, Hi).
  rewrite Hb, list_lookup_fmap in H.
  destruct (bounds !! i) as [u|]; [|done].
  injection H as H. by exists u.
Qed.

(** X18: with the bins built for a column, every numeric value of the
    column gets the colour of a bin whose upper bound is at least the
    value, while the upper bound of every bin before it is below the
    value. (For any statistics package that meets the two contracts.) *)
Theorem column_values_find_their_bin
    (simplestats : SimpleStatistics) (column : TableColumn)
    (style : TableStyle) (g : ImageData) (this : LegendHelper)
    (vs : list JS.value) (b : Z) (x : Q) :
  quantileContract simplestats ->
  ckmeansContract simplestats ->
  values column = Some vs ->
  colorBins style = Some b ->
  1 <= b ->
  matchNone (colorBinMethod style) = false ->
  buildBinColors simplestats column style g = JS.Ok (_binColors this) ->
  x ∈ numericalValuesOf vs ->
  exists i bin u,
    _binColors this ≫= (fun bins => bins !! i) = Some bin
    /\ upperBound bin = Some u
    /\ (x <= u)%Q
    /\ (forall j, (j < i)%nat ->
                  exists bin' u',
                    _binColors this ≫= (fun bins => bins !! j) = Some bin'
                    /\ upperBound bin' = Some u' /\ (u' < x)%Q)
    /\ getColorFromValue this (Some x)
       = JS.Ok ([], colorArrayToColor (color bin)).
Proof.
  intros Hq Hck Hvs Hb Hb1 Hnone Hthis Hx.
  assert (Hne : numericalValuesOf vs <> []).
  { intros Hnil. rewrite Hnil in Hx. by apply elem_of_nil in Hx. }
  destruct (buildBinColors_within simplestats column style g vs b)
    as (bins & Hbuilt & Hwithin); [done..|].
  rewrite Hbuilt in Hthis. injection Hthis as Hthis. symmetry in Hthis.
  pose proof (binsWithin_nonempty _ _ _ Hwithin) as Hbins.
  destruct Hwithin as (bounds & Hbounds & _ & _ & m & Hm & _ & Hmax).
  destruct (getColorFromValue_scan this bins x Hthis Hbins)
    as (i & bin & Hi & Hbin & Hget).
  destruct (scanBins_exit (length bins) bins x 0)
    as (_ & Hbefore & Hstop); [lia|].
  rewrite <- Hi in Hbefore, Hstop.
  destruct (upperBound_lookup bins bounds i bin Hbounds Hbin) as (u & Hu & Hbu).
  exists i, bin, u. rewrite Hthis. cbn [mbind option_bind].
  split; [done|]. split; [done|]. split; [|split; [|done]].
  - unfold scanContinues in Hstop. apply andb_false_iff in Hstop as [H | H].
    + apply Z.ltb_ge in H.
      pose proof (lookup_lt_Some _ _ _ Hbin) as Hlt.
      assert (Hlen : length bounds = length bins).
      { apply (f_equal length) in Hbounds. by rewrite !length_fmap in Hbounds. }
      rewrite last_lookup in Hm.
      replace (Nat.pred (length bounds)) with i in Hm by lia.
      assert (u = m) as -> by congruence. by apply Hmax.
    + unfold boundAt in H. rewrite Hbin, Hu in H. by apply gt_false in H.
  - intros j Hj. specialize (Hbefore j ltac:(lia)).
    unfold scanContinues in Hbefore. apply andb_true_iff in Hbefore as [_ Hgt].
    destruct (lookup_lt_is_Some_2 bins j) as [bin' Hbin'].
    { apply lookup_lt_Some in Hbin. lia. }
    unfold boundAt in Hgt. rewrite Hbin' in Hgt.
    apply gt_true in Hgt as (a & u' & [= <-] & Hu' & Hlt).
    by exists bin', u'.
Qed.

Lemma column_values_find_their_bin_witness :
  let this :=
    mkLegendHelper (Some (columnOf [1; 5; 9]%Q)) 1%positive LegendUndefined
      (Some exampleGradient)
      (Some [ mkBin (Some 1%Q) [Some 32; Some 0; Some 200; Some 255];
              mkBin (Some 9%Q) [Some 200; Some 0; Some 0; Some 255] ]) in
  exists i bin u,
    _binColors this ≫= (fun bins => bins !! i) = Some bin
    /\ upperBound bin = Some u
    /\ (5 <= u)%Q.
Proof.
  intros this.
  destruct (column_values_find_their_bin specStatistics (columnOf [1; 5; 9]%Q)
              (styleOf 2 "auto") exampleGradient this
              (JS.VNumber <$> [1; 5; 9]%Q) 2 5%Q
              specStatistics_quantileContract specStatistics_ckmeansContract
              eq_refl eq_refl ltac:(lia) eq_refl)
    as (i & bin & u & Hbin & Hu & Hle & _).
  - vm_compute. reflexivity.
  - apply elem_of_cons. right. apply elem_of_cons. by left.
  - exists i, bin, u. split; [exact Hbin|]. split; [exact Hu | exact Hle].
Defined.

Lemma buildLegendProps_defined_iff_witness :
  is_Some (buildLegendProps (columnOf [1; 5; 9]%Q) newTableStyle []
             (Some exampleBins)).
Proof.
  apply (proj2 (buildLegendProps_defined_iff (columnOf [1; 5; 9]%Q)
                  newTableStyle [] (Some exampleBins))).
  discriminate.
Defined.

Lemma newLegendHelper_own_style_witness :
  let h : store := {[ 1%positive := styleOf 3 "quantile" ]} in
  (newLegendHelper None None h).2 !! 1%positive
  = Some (styleOf 3 "quantile").
Proof.
  intros h.
  destruct (newLegendHelper_own_style None h) as (_ & _ & H & _).
  apply H. reflexivity.
Defined.

Lemma matchNone_iff_witness : matchNone "ckmeans-NoNe" = true.
Proof.
  apply (proj2 (matchNone_iff "ckmeans-NoNe")).
  exists "ckmeans-", "N"%char, "o"%char, "N"%char, "e"%char, "".
  split; [reflexivity|]. repeat split; reflexivity.
Defined.
